(** * The QML semantic checker (qmljscheck.cpp)

    A shallow embedding of [QmlJS::toQColor], [QmlJS::locationFromRange],
    the [AssignmentCheck] value visitor and the [Check] tree walker, with
    the properties of their specification settled against the code.

    Qt's own classes (QString, QChar, QColor, QUrl, QFileInfo) and the
    collaborators of the checker that live in other files (the parser's
    AST, the interpreter's values, the evaluator, the context and the scope
    builder) are either modelled by small data types or taken as the
    fields of the class [Externals]. *)

From Stdlib Require Import List String Ascii ZArith Lia Bool.
Import ListNotations.
Local Open Scope string_scope.

(** Induction principles of the nested tree types go through their lists,
    options and pairs. *)
Scheme All for list.
Scheme All for option.
Scheme All for prod.

(** ** QString *)

Module QString.

Definition isEmpty (s : string) : bool :=
  match s with EmptyString => true | String _ _ => false end.

Definition size (s : string) : nat := String.length s.

(** [QString::at(i)]: the index must be a valid position; [None] stands
    for the call made outside of the string. *)
Definition at_ (s : string) (i : nat) : option ascii := String.get i s.

(** [QString::mid(pos, n)] *)
Definition mid (s : string) (pos n : nat) : string := String.substring pos n s.

(** [QString::right(n)]: the whole string when it is shorter than [n] *)
Definition right (s : string) (n : nat) : string :=
  String.substring (size s - n) n s.

(** [QStringList::contains] *)
Definition contains (l : list string) (s : string) : bool :=
  existsb (String.eqb s) l.

End QString.

(** ** Source locations and diagnostics *)

Module AST.

(** The four fields are [quint32]. *)
Record SourceLocation : Type := mkLoc
  { offset : Z; length : Z; startLine : Z; startColumn : Z }.

Definition wrap32 (z : Z) : Z := z mod 2 ^ 32.

Definition begin_ (l : SourceLocation) : Z := offset l.
Definition end_ (l : SourceLocation) : Z := wrap32 (offset l + length l).

End AST.

Definition locationFromRange (start end_ : AST.SourceLocation) : AST.SourceLocation :=
  AST.mkLoc (AST.offset start)
            (AST.wrap32 (AST.end_ end_ - AST.begin_ start))
            (AST.startLine start)
            (AST.startColumn start).

Inductive Kind : Type := Warning | Error.

Record DiagnosticMessage : Type := mkMessage
  { kind : Kind; loc : AST.SourceLocation; message : string }.

Definition errorMessage (l : AST.SourceLocation) (m : string) : DiagnosticMessage :=
  mkMessage Error l m.

(** ** The syntax tree

    The declarations of the parser's tree (qmljsast_p.h) are not among these
    sources: the node kinds and fields below are the ones the checker
    reads.  Pointers that the checker tests against null somewhere are
    options. *)

Inductive UiQualifiedId : Type :=
| QualifiedId (name : option string) (identifierToken : AST.SourceLocation)
              (next : option UiQualifiedId).

Definition qname (q : UiQualifiedId) : option string :=
  match q with QualifiedId n _ _ => n end.
Definition qtoken (q : UiQualifiedId) : AST.SourceLocation :=
  match q with QualifiedId _ t _ => t end.
Definition qnext (q : UiQualifiedId) : option UiQualifiedId :=
  match q with QualifiedId _ _ n => n end.

(** The node kinds the checker has a [visit] for, the expression and
    statement kinds it casts to, and [OtherNode] for every kind it leaves to
    the generic traversal. *)
Inductive Node : Type :=
| UiProgram (imports : list Node) (members : list Node)
| UiObjectDefinition (qualifiedTypeNameId : option UiQualifiedId)
                     (initializer : option Node)
| UiObjectBinding (qualifiedId : option UiQualifiedId)
                  (qualifiedTypeNameId : option UiQualifiedId)
                  (initializer : option Node)
| UiScriptBinding (qualifiedId : option UiQualifiedId) (statement : option Node)
| UiArrayBinding (qualifiedId : option UiQualifiedId) (members : list Node)
| ExpressionStatement (expression : Node)
| IdentifierExpression (name : option string)
| FieldMemberExpression (base : Node) (name : option string)
| StringLiteral (value : string)
| NumericLiteral
| TrueLiteral
| FalseLiteral
| UnaryMinusExpression (expression : Node)
| FunctionDeclaration (formals : option Node) (body : option Node)
| FunctionExpression (formals : option Node) (body : option Node)
| OtherNode (children : list Node).

(** ** Interpreter values

    Modelled from the spec: the value hierarchy of the interpreter
    (qmljsinterpreter.cpp), "NumberValue (optionally specialized as an enum
    value carrying a set of valid string keys), BooleanValue, StringValue
    (optionally specialized as a URL-typed string), ColorValue,
    AnchorLineValue, ObjectValue (has named members, lookup by name plus a
    class name for diagnostics), UndefinedValue, Reference". *)
Inductive Value : Type :=
| NullValue
| UndefinedValue
| NumberValue
| QmlEnumValue (keys : list string)
| BooleanValue
| StringValue
| UrlValue
| ColorValue
| AnchorLineValue
| Reference
| ObjectV (o : ObjectValue)
with ObjectValue : Type :=
| mkObject (className : string) (members : list (string * Value)).

Definition asUndefinedValue (v : Value) : bool :=
  match v with UndefinedValue => true | _ => false end.
Definition asStringValue (v : Value) : bool :=
  match v with StringValue | UrlValue => true | _ => false end.
Definition asNumberValue (v : Value) : bool :=
  match v with NumberValue | QmlEnumValue _ => true | _ => false end.
Definition asAnchorLineValue (v : Value) : bool :=
  match v with AnchorLineValue => true | _ => false end.
Definition asObjectValue (v : Value) : option ObjectValue :=
  match v with ObjectV o => Some o | _ => None end.

(** [value_cast] to an [ObjectValue], which accepts a null pointer *)
Definition value_cast_ObjectValue (v : option Value) : option ObjectValue :=
  match v with Some v => asObjectValue v | None => None end.

Definition className (o : ObjectValue) : string :=
  match o with mkObject c _ => c end.
Definition members (o : ObjectValue) : list (string * Value) :=
  match o with mkObject _ ms => ms end.

Fixpoint assoc (ms : list (string * Value)) (n : string) : option Value :=
  match ms with
  | [] => None
  | (k, v) :: r => if String.eqb k n then Some v else assoc r n
  end.

(** Modelled from the spec: [ObjectValue::lookupMember], the "lookup by
    name" among the named members; the first member of that name. *)
Definition lookupMember (o : ObjectValue) (n : string) : option Value :=
  assoc (members o) n.

(** ** The scope chain of the context *)

Record ScopeChain : Type := mkScopeChain
  { qmlScopeObjects : list ObjectValue;
    qmlTypes : option ObjectValue;
    jsScopes : list ObjectValue }.

(** ** What the checker takes from outside *)

Definition isAsciiLowerLetter (c : ascii) : bool :=
  (97 <=? nat_of_ascii c)%nat && (nat_of_ascii c <=? 122)%nat.
Definition isAsciiUpperLetter (c : ascii) : bool :=
  (65 <=? nat_of_ascii c)%nat && (nat_of_ascii c <=? 90)%nat.

Class Externals : Type :=
  { (** [QChar::isLower], [QChar::isUpper]: the Unicode categories Ll and
        Lu, which no character has both and of which a..z are the first *)
    isLower : ascii -> bool;
    isUpper : ascii -> bool;
    isUpper_not_isLower : forall c, isUpper c = true -> isLower c = false;
    isLower_ascii : forall c, isAsciiLowerLetter c = true -> isLower c = true;
    (** [QString::toInt(&ok, 16)]: [None] when [ok] is false *)
    toInt16 : string -> option Z;
    (** [QColor::setColorFromString]: the RGB value of a colour name *)
    namedColor : string -> option Z;
    (** [QUrl] built from a string, and [QFileInfo::exists] *)
    urlIsValid : string -> bool;
    urlIsEmpty : string -> bool;
    urlToLocalFile : string -> string;
    urlIsRelative : string -> bool;
    fileExists : string -> bool;
    dirSeparator : string;
    (** [Document::path] *)
    docPath : string;
    (** [Node::firstSourceLocation], [Node::lastSourceLocation] *)
    firstSourceLocation : Node -> AST.SourceLocation;
    lastSourceLocation : Node -> AST.SourceLocation;
    (** [Context::lookupType] on the document's type environment *)
    lookupType : UiQualifiedId -> option ObjectValue;
    (** [Evaluate] in a context *)
    evaluate : ScopeChain -> Node -> option Value;
    (** the scope chain the binder gives to a node that opens a scope *)
    enterScope : Node -> ScopeChain -> ScopeChain }.

(** ** QColor *)

Record QColor : Type := mkColor { isValid : bool; rgb : Z; alpha : Z }.

Definition invalidQColor : QColor := mkColor false 0 255.

Section Color.
Context {E : Externals}.

(** [QColor::isValidColor] *)
Definition isValidColor (n : string) : bool :=
  negb (QString.isEmpty n)
  && match namedColor n with Some _ => true | None => false end.

(** [QColor::setNamedColor] *)
Definition setNamedColor (c : QColor) (n : string) : QColor :=
  match namedColor n with
  | Some v => mkColor true v 255
  | None => invalidQColor
  end.

(** [QColor::setAlpha], which brings its argument into 0..255 *)
Definition setAlpha (c : QColor) (a : Z) : QColor :=
  mkColor (isValid c) (rgb c) (Z.max 0 (Z.min a 255)).

Definition startsWithHash (s : string) : bool :=
  match QString.at_ s 0 with
  | Some c => Ascii.eqb c "#"%char
  | None => false
  end.

Definition toQColor (qmlColorString : string) : QColor :=
  let color := invalidQColor in
  if Nat.eqb (QString.size qmlColorString) 9 && startsWithHash qmlColorString
  then
    match toInt16 (QString.mid qmlColorString 1 2) with
    | Some a =>
        let name := String "#" (QString.right qmlColorString 6) in
        if isValidColor name
        then setAlpha (setNamedColor color name) a
        else color
    | None => color
    end
  else
    if isValidColor qmlColorString
    then setNamedColor color qmlColorString
    else color.

End Color.

(** ** AssignmentCheck

    The visitor returns its [_message]; [None] stands for the dereference
    of a null [_rhsValue]. *)

Definition castStringLiteral (ast : Node) : option string :=
  match ast with StringLiteral v => Some v | _ => None end.

Definition isNumericLiteral (ast : Node) : bool :=
  match ast with NumericLiteral => true | _ => false end.

(** [unaryMinus] and its [expression] both pass their casts *)
Definition isNegatedNumericLiteral (ast : Node) : bool :=
  match ast with
  | UnaryMinusExpression e => isNumericLiteral e
  | _ => false
  end.

(** [_ast->kind == Node::Kind_TrueLiteral || _ast->kind == Node::Kind_FalseLiteral] *)
Definition isTrueOrFalseLiteral (ast : Node) : bool :=
  match ast with TrueLiteral | FalseLiteral => true | _ => false end.

Definition setMessage (m : DiagnosticMessage) (text : string) : DiagnosticMessage :=
  mkMessage (kind m) (loc m) text.

Section AssignmentCheck.
Context {E : Externals}.

Variable _message : DiagnosticMessage.
Variable _rhsValue : option Value.
Variable _ast : Node.

(** [visit] of a [NumberValue], [enumKeys] being the keys of the value
    when it is a [QmlEnumValue] *)
Definition visitNumberValue (enumKeys : option (list string))
  : option DiagnosticMessage :=
  match enumKeys with
  | Some keys =>
      match castStringLiteral _ast with
      | Some valueName =>
          if negb (QString.contains keys valueName)
          then Some (setMessage _message "unknown value for enum")
          else Some _message
      | None =>
          match _rhsValue with
          | None => None
          | Some rhs =>
              if asUndefinedValue rhs
              then Some (mkMessage Warning (loc _message)
                                   "value might be 'undefined'")
              else if negb (asStringValue rhs) && negb (asNumberValue rhs)
              then Some (setMessage _message
                                    "enum value is not a string or number")
              else Some _message
          end
      end
  | None =>
      if isTrueOrFalseLiteral _ast
      then Some (setMessage _message "numerical value expected")
      else Some _message
  end.

(** [visit] of a [BooleanValue] *)
Definition visitBooleanValue : option DiagnosticMessage :=
  match castStringLiteral _ast with
  | Some _ => Some (setMessage _message "boolean value expected")
  | None =>
      if isNumericLiteral _ast || isNegatedNumericLiteral _ast
      then Some (setMessage _message "boolean value expected")
      else Some _message
  end.

(** [visit] of a [StringValue]; [isUrl] is [value && value->asUrlValue()] *)
Definition visitStringValue (isUrl : bool) : option DiagnosticMessage :=
  let m :=
    if isNumericLiteral _ast || isNegatedNumericLiteral _ast
       || isTrueOrFalseLiteral _ast
    then setMessage _message "string value expected"
    else _message in
  if isUrl then
    match castStringLiteral _ast with
    | Some text =>
        if negb (urlIsValid text) && negb (urlIsEmpty text)
        then Some (setMessage m "not a valid url")
        else
          let fileName := urlToLocalFile text in
          if negb (QString.isEmpty fileName) then
            let fileName :=
              if urlIsRelative text
              then docPath ++ dirSeparator ++ fileName
              else fileName in
            if negb (fileExists fileName)
            then Some (setMessage m "file or directory does not exist")
            else Some m
          else Some m
    | None => Some m
    end
  else Some m.

(** [visit] of a [ColorValue] *)
Definition visitColorValue : option DiagnosticMessage :=
  match castStringLiteral _ast with
  | Some text =>
      if negb (isValid (toQColor text))
      then Some (setMessage _message "not a valid color")
      else Some _message
  | None => visitStringValue false
  end.

(** [visit] of an [AnchorLineValue] *)
Definition visitAnchorLineValue : option DiagnosticMessage :=
  match _rhsValue with
  | None => None
  | Some rhs =>
      if negb (asAnchorLineValue rhs || asUndefinedValue rhs)
      then Some (setMessage _message "expected anchor line")
      else Some _message
  end.

(** [Value::accept]: the visitor's own [visit] for five kinds of value,
    the empty [visit] of [ValueVisitor] for the others *)
Definition acceptValue (v : Value) : option DiagnosticMessage :=
  match v with
  | NumberValue => visitNumberValue None
  | QmlEnumValue keys => visitNumberValue (Some keys)
  | BooleanValue => visitBooleanValue
  | StringValue => visitStringValue false
  | UrlValue => visitStringValue true
  | ColorValue => visitColorValue
  | AnchorLineValue => visitAnchorLineValue
  | NullValue | UndefinedValue | Reference | ObjectV _ => Some _message
  end.

End AssignmentCheck.

(** [AssignmentCheck::operator()] *)
Definition AssignmentCheck {E : Externals} (location : AST.SourceLocation)
  (lhsValue rhsValue : option Value) (ast : Node) : option DiagnosticMessage :=
  let _message := mkMessage Error location EmptyString in
  match lhsValue with
  | Some lhs => acceptValue _message rhsValue ast lhs
  | None => Some _message
  end.

(** ** The state of a [Check] and its monad *)

(** The members of [Check] that a run reads and writes.  [_scopeBuilder]
    is the stack of the scope builder, see [push] and [pop]. *)
Record CheckState : Type := mkState
  { _messages : list DiagnosticMessage;
    _context : ScopeChain;
    _scopeBuilder : list ScopeChain;
    _ignoreTypeErrors : bool }.

(** A run either stops on the dereference of a null pointer or on a call
    outside of a container ([Fault]), or goes on with a value and a state. *)
Inductive Result (A : Type) : Type :=
| Fault
| Ok (a : A) (s : CheckState).
Arguments Fault {A}.
Arguments Ok {A} a s.

Definition M (A : Type) : Type := CheckState -> Result A.

Definition ret {A} (a : A) : M A := fun s => Ok a s.
Definition fault {A} : M A := fun _ => Fault.
Definition bind {A B} (m : M A) (f : A -> M B) : M B :=
  fun s => match m s with Fault => Fault | Ok a s' => f a s' end.

Declare Scope check_scope.
Delimit Scope check_scope with check.
Notation "x <- m ;; k" := (bind m (fun x => k))
  (at level 61, m at next level, right associativity) : check_scope.
Notation "m ;;; k" := (bind m (fun _ => k))
  (at level 61, right associativity) : check_scope.
Local Open Scope check_scope.

Definition append (d : DiagnosticMessage) : M unit :=
  fun s => Ok tt (mkState (_messages s ++ [d]) (_context s) (_scopeBuilder s)
                          (_ignoreTypeErrors s)).

(** [Check::error], [Check::warning] *)
Definition error (l : AST.SourceLocation) (m : string) : M unit :=
  append (mkMessage Error l m).
Definition warning (l : AST.SourceLocation) (m : string) : M unit :=
  append (mkMessage Warning l m).

Definition scopeChain : M ScopeChain := fun s => Ok (_context s) s.
Definition ignoreTypeErrors : M bool := fun s => Ok (_ignoreTypeErrors s) s.

(** [_context.scopeChain().qmlScopeObjects.clear()]; [update()] rebuilds a
    cache of the chain and changes nothing the checker reads. *)
Definition clearQmlScopeObjects : M unit :=
  fun s => Ok tt (mkState (_messages s)
                          (mkScopeChain [] (qmlTypes (_context s))
                                        (jsScopes (_context s)))
                          (_scopeBuilder s) (_ignoreTypeErrors s)).

Section ScopeBuilder.
Context {E : Externals}.

(** Modelled from the spec: [ScopeBuilder::push] (qmljsscopebuilder.cpp),
    which "pushes a new scope frame" for the node: the scope chain of the
    context is saved and the one of the node installed. *)
Definition push (ast : Node) : M unit :=
  fun s => Ok tt (mkState (_messages s) (enterScope ast (_context s))
                          (_context s :: _scopeBuilder s)
                          (_ignoreTypeErrors s)).

(** Modelled from the spec: [ScopeBuilder::pop], which "restores the prior
    frame" and leaves the context "exactly as found": the scope chain saved
    by the matching [push] is put back.  There is no frame to pop on an
    empty stack. *)
Definition pop : M unit :=
  fun s => match _scopeBuilder s with
           | [] => Fault
           | c :: saved =>
               Ok tt (mkState (_messages s) c saved (_ignoreTypeErrors s))
           end.

End ScopeBuilder.

(** The depth of the scope chain: the number of frames pushed and not yet
    popped. *)
Definition depth (s : CheckState) : nat := List.length (_scopeBuilder s).

(** ** checkScopeObjectMember *)

Definition startsWith (p : ascii -> bool) (s : string) : bool :=
  match QString.at_ s 0 with Some c => p c | None => false end.

Definition isNull {A} (o : option A) : bool :=
  match o with Some _ => false | None => true end.

Definition isEmptyList {A} (l : list A) : bool :=
  match l with [] => true | _ :: _ => false end.

(** The loop over [scopeObjects] from the last index down to 0, left at the
    first object that has the member. *)
Fixpoint lookupFromLast (reversed : list ObjectValue) (n : string) : option Value :=
  match reversed with
  | [] => None
  | o :: r =>
      match lookupMember o n with
      | Some v => Some v
      | None => lookupFromLast r n
      end
  end.

Definition globalLookup (scopeObjects : list ObjectValue) (n : string) : option Value :=
  lookupFromLast (rev scopeObjects) n.

Definition notValidPropertyName (n : string) : string :=
  "'" ++ n ++ "' is not a valid property name".
Definition doesNotHaveMembers (n : string) : string :=
  "'" ++ n ++ "' does not have members".
Definition isNotAMemberOf (n c : string) : string :=
  "'" ++ n ++ "' is not a member of '" ++ c ++ "'".

(** The [while (idPart->next)] loop. *)
Fixpoint memberLookup (idPart : UiQualifiedId) (propertyName : string)
  (value : option Value) {struct idPart} : M (option Value) :=
  match idPart with
  | QualifiedId _ tok None => ret value
  | QualifiedId _ tok (Some nxt) =>
      match value_cast_ObjectValue value with
      | None =>
          error tok (doesNotHaveMembers propertyName) ;;;
          ret None
      | Some objectValue =>
          match qname nxt with
          | None => ret None
          | Some propertyName' =>
              match lookupMember objectValue propertyName' with
              | None =>
                  error (qtoken nxt)
                        (isNotAMemberOf propertyName' (className objectValue)) ;;;
                  ret None
              | Some v => memberLookup nxt propertyName' (Some v)
              end
          end
      end
  end.

Section Check.
Context {E : Externals}.

Definition checkScopeObjectMember (id : option UiQualifiedId) : M (option Value) :=
  chain <- scopeChain ;;
  let scopeObjects := qmlScopeObjects chain in
  if isEmptyList scopeObjects then ret None else
  match id with
  | None => ret None
  | Some id =>
  match qname id with
  | None => ret None
  | Some propertyName =>
  if String.eqb propertyName "id" && isNull (qnext id) then ret None else
  let isAttachedProperty :=
    negb (QString.isEmpty propertyName) && startsWith isUpper propertyName in
  let scopeObjects :=
    if isAttachedProperty then
      match qmlTypes chain with
      | Some types => (scopeObjects ++ [types])%list
      | None => scopeObjects
      end
    else scopeObjects in
  if isEmptyList scopeObjects then ret None else
  let value := globalLookup scopeObjects propertyName in
  (if isNull value
   then error (qtoken id) (notValidPropertyName propertyName)
   else ret tt) ;;;
  if isAttachedProperty then ret None else
  memberLookup id propertyName value
  end
  end.

(** [Check::visitQmlObject]; [acceptInitializer] is
    [Node::accept(initializer, this)]. *)
Definition visitQmlObject (ast : Node) (typeId : option UiQualifiedId)
  (acceptInitializer : M unit) : M unit :=
  match typeId with
  | None => fault
  | Some typeId =>
  match qname typeId with
  | None => fault
  | Some typeName =>
  match QString.at_ typeName 0 with
  | None => fault
  | Some c =>
      if isLower c && isNull (qnext typeId) then
        checkScopeObjectMember (Some typeId) ;;;
        ret tt
      else
        push ast ;;;
        (if isNull (lookupType typeId) then
           ignore <- ignoreTypeErrors ;;
           (if negb ignore
            then error (qtoken typeId) "unknown type"
            else ret tt) ;;;
           clearQmlScopeObjects
         else ret tt) ;;;
        acceptInitializer ;;;
        pop
  end
  end
  end.

(** The part of [Check::visit(UiScriptBinding *ast)] after the special
    case for the id property. *)
Definition checkBinding (qualifiedId : UiQualifiedId) (statement : option Node)
  : M bool :=
  lhsValue <- checkScopeObjectMember (Some qualifiedId) ;;
  match lhsValue, statement with
  | Some lhs, Some (ExpressionStatement expr as expStmt) =>
      chain <- scopeChain ;;
      let rhsValue := evaluate chain expr in
      let loc := locationFromRange (firstSourceLocation expStmt)
                                   (lastSourceLocation expStmt) in
      match AssignmentCheck loc (Some lhs) rhsValue expr with
      | None => fault
      | Some message_ =>
          (if negb (QString.isEmpty (message message_))
           then append message_
           else ret tt) ;;;
          ret true
      end
  | _, _ => ret true
  end.

(** [Check::visit(UiScriptBinding *ast)] *)
Definition visitUiScriptBinding (qualifiedId : option UiQualifiedId)
  (statement : option Node) : M bool :=
  match qualifiedId with
  | None => fault
  | Some qualifiedId =>
  match qname qualifiedId with
  | None => fault
  | Some propertyName =>
      if String.eqb propertyName "id" && isNull (qnext qualifiedId) then
        match statement with
        | None => ret false
        | Some stmt =>
            let loc := locationFromRange (firstSourceLocation stmt)
                                         (lastSourceLocation stmt) in
            let caseCheck (id : string) : M bool :=
              if QString.isEmpty id || negb (startsWith isLower id) then
                error loc "ids must be lower case" ;;;
                ret false
              else checkBinding qualifiedId statement in
            match stmt with
            | ExpressionStatement (IdentifierExpression (Some id)) =>
                caseCheck id
            | ExpressionStatement (IdentifierExpression None) => fault
            | ExpressionStatement (StringLiteral id) =>
                warning loc "using string literals for ids is discouraged" ;;;
                caseCheck id
            | _ =>
                error loc "expected id" ;;;
                ret false
            end
        end
      else checkBinding qualifiedId statement
  end
  end.

(** The static [Node::accept(Node *, Visitor * )], which does nothing on a
    null node, and the traversal of a list of nodes. *)
Definition Node_accept (f : Node -> M unit) (o : option Node) : M unit :=
  match o with Some c => f c | None => ret tt end.

Fixpoint acceptEach (f : Node -> M unit) (l : list Node) : M unit :=
  match l with
  | [] => ret tt
  | c :: r => f c ;;; acceptEach f r
  end.

(** [Node::accept(Visitor * )] with [Check] as the visitor: the [visit]
    of the node, then its children when [visit] returns true. *)
Fixpoint accept (n : Node) {struct n} : M unit :=
  match n with
  | UiProgram imports members =>
      acceptEach accept imports ;;;
      acceptEach accept members
  | UiObjectDefinition typeId initializer =>
      visitQmlObject n typeId (Node_accept accept initializer)
  | UiObjectBinding qualifiedId typeId initializer =>
      checkScopeObjectMember qualifiedId ;;;
      visitQmlObject n typeId (Node_accept accept initializer)
  | UiScriptBinding qualifiedId statement =>
      descend <- visitUiScriptBinding qualifiedId statement ;;
      if descend then Node_accept accept statement else ret tt
  | UiArrayBinding qualifiedId members =>
      checkScopeObjectMember qualifiedId ;;;
      acceptEach accept members
  | ExpressionStatement e => accept e
  | IdentifierExpression _ => ret tt
  | FieldMemberExpression base _ => accept base
  | StringLiteral _ | NumericLiteral | TrueLiteral | FalseLiteral => ret tt
  | UnaryMinusExpression e => accept e
  | FunctionDeclaration formals body
  | FunctionExpression formals body =>
      Node_accept accept formals ;;;
      push n ;;;
      Node_accept accept body ;;;
      pop
  | OtherNode children => acceptEach accept children
  end.

Definition clearMessages : M unit :=
  fun s => Ok tt (mkState [] (_context s) (_scopeBuilder s)
                          (_ignoreTypeErrors s)).

Definition messages : M (list DiagnosticMessage) :=
  fun s => Ok (_messages s) s.

(** [Check::operator()] on a document whose tree is [ast] *)
Definition run (ast : option Node) : M (list DiagnosticMessage) :=
  clearMessages ;;;
  Node_accept accept ast ;;;
  messages.

End Check.

(** ** A concrete environment

    ASCII letters, two-digit hexadecimal numbers, colours written #RRGGBB,
    one known type [Item] with one scope object.  The statements below are
    evaluated in it. *)

Module Sample.

Definition hexDigit (c : ascii) : option Z :=
  let n := nat_of_ascii c in
  if (48 <=? n)%nat && (n <=? 57)%nat then Some (Z.of_nat n - 48)%Z
  else if (65 <=? n)%nat && (n <=? 70)%nat then Some (Z.of_nat n - 55)%Z
  else if (97 <=? n)%nat && (n <=? 102)%nat then Some (Z.of_nat n - 87)%Z
  else None.

Fixpoint hexFrom (acc : Z) (s : string) : option Z :=
  match s with
  | EmptyString => Some acc
  | String c r =>
      match hexDigit c with
      | Some d => hexFrom (16 * acc + d)%Z r
      | None => None
      end
  end.

Definition hex (s : string) : option Z :=
  if QString.isEmpty s then None else hexFrom 0 s.

Definition hashColor (s : string) : option Z :=
  match s with
  | String "#" r => if Nat.eqb (String.length r) 6 then hex r else None
  | _ => None
  end.

Definition noLoc : AST.SourceLocation := AST.mkLoc 0 0 1 1%Z.

Definition locOf (n : Node) : AST.SourceLocation :=
  match n with
  | ExpressionStatement _ => AST.mkLoc 4 3 1 5%Z
  | _ => noLoc
  end.

Definition anchors : ObjectValue :=
  mkObject "Anchors" [("left", AnchorLineValue); ("margins", NumberValue)].

Definition item : ObjectValue :=
  mkObject "Item"
    [("width", NumberValue); ("visible", BooleanValue);
     ("color", ColorValue); ("source", UrlValue);
     ("state", StringValue);
     ("horizontalAlignment", QmlEnumValue ["AlignLeft"; "AlignRight"]);
     ("anchors", ObjectV anchors);
     ("Behavior", NumberValue)].

Definition attached : ObjectValue :=
  mkObject "QmlTypes" [("Keys", ObjectV (mkObject "Keys" []))].

Definition knownType (t : UiQualifiedId) : option ObjectValue :=
  match t with
  | QualifiedId (Some "Item") _ None => Some item
  | _ => None
  end.

Definition evaluateLiteral (_ : ScopeChain) (e : Node) : option Value :=
  match e with
  | StringLiteral _ => Some StringValue
  | NumericLiteral => Some NumberValue
  | UnaryMinusExpression _ => Some NumberValue
  | TrueLiteral | FalseLiteral => Some BooleanValue
  | IdentifierExpression _ => Some UndefinedValue
  | _ => None
  end.

Definition enter (n : Node) (c : ScopeChain) : ScopeChain :=
  match n with
  | UiObjectDefinition _ _ | UiObjectBinding _ _ _ =>
      mkScopeChain [item] (qmlTypes c) (jsScopes c)
  | FunctionDeclaration _ _ | FunctionExpression _ _ =>
      mkScopeChain (qmlScopeObjects c) (qmlTypes c)
        (jsScopes c ++ [mkObject "Function" []])
  | _ => c
  end.

End Sample.

Lemma asciiUpper_not_asciiLower (c : ascii) :
  isAsciiUpperLetter c = true -> isAsciiLowerLetter c = false.
Proof.
  unfold isAsciiUpperLetter, isAsciiLowerLetter.
  destruct (97 <=? nat_of_ascii c)%nat eqn:H; [|reflexivity].
  apply Nat.leb_le in H. intros H'. apply andb_true_iff in H' as [_ H'].
  apply Nat.leb_le in H'. lia.
Qed.

(** The environment, given its colour table and its evaluator. *)
Definition sampleWith (colours : string -> option Z)
  (evaluator : ScopeChain -> Node -> option Value) : Externals :=
  {| isLower := isAsciiLowerLetter;
     isUpper := isAsciiUpperLetter;
     isUpper_not_isLower := asciiUpper_not_asciiLower;
     isLower_ascii := fun _ H => H;
     toInt16 := Sample.hex;
     namedColor := colours;
     urlIsValid := fun _ => true;
     urlIsEmpty := QString.isEmpty;
     urlToLocalFile := fun s => s;
     urlIsRelative := fun _ => true;
     fileExists := fun _ => false;
     dirSeparator := "/";
     docPath := "/project";
     firstSourceLocation := Sample.locOf;
     lastSourceLocation := Sample.locOf;
     lookupType := Sample.knownType;
     evaluate := evaluator;
     enterScope := Sample.enter |}.

Definition sample : Externals :=
  sampleWith Sample.hashColor Sample.evaluateLiteral.

(** The sample environment with an evaluator that yields no value. *)
Definition noValue : Externals :=
  sampleWith Sample.hashColor (fun _ _ => None).

(** * The vocabulary of the statements *)

Definition addMessages (s : CheckState) (ms : list DiagnosticMessage) : CheckState :=
  mkState (_messages s ++ ms) (_context s) (_scopeBuilder s) (_ignoreTypeErrors s).

(** An action is scoped when it leaves the scope chain, the stack of the
    scope builder and the options as they were, and only appends messages
    that do not depend on the ones already there; or faults, whatever the
    messages already there. *)
Definition scoped {A} (m : M A) : Prop :=
  forall c b i,
    (forall pre, m (mkState pre c b i) = Fault) \/
    (exists a ms, forall pre,
        m (mkState pre c b i) = Ok a (mkState (pre ++ ms) c b i)).

(** An action that may also change the scope chain of the context. *)
Definition rescoping (m : M unit) : Prop :=
  forall c b i, exists ms c', forall pre,
    m (mkState pre c b i) = Ok tt (mkState (pre ++ ms) c' b i).

(** The rules of [AssignmentCheck] that read [_rhsValue]: the one of an enum
    when the expression is not a string literal, and the one of an anchor
    line. *)
Definition ruleReadsValue (lhs : Value) (ast : Node) : bool :=
  match lhs with
  | QmlEnumValue _ => isNull (castStringLiteral ast)
  | AnchorLineValue => true
  | _ => false
  end.


Definition inItem : CheckState :=
  mkState [] (mkScopeChain [Sample.item] (Some Sample.attached) []) [] false.

Definition segment (n : string) (next : option UiQualifiedId) : UiQualifiedId :=
  QualifiedId (Some n) Sample.noLoc next.

Definition idProperty (tok : AST.SourceLocation) : UiQualifiedId :=
  QualifiedId (Some "id") tok None.

Definition idBinding (tok : AST.SourceLocation) (e : Node) : Node :=
  UiScriptBinding (Some (idProperty tok)) (Some (ExpressionStatement e)).

Definition statementLocation {E : Externals} (e : Node) : AST.SourceLocation :=
  locationFromRange (firstSourceLocation (ExpressionStatement e))
                    (lastSourceLocation (ExpressionStatement e)).

Definition isIdentifierOrString (e : Node) : bool :=
  match e with
  | IdentifierExpression _ | StringLiteral _ => true
  | _ => false
  end.

(** Length 9 and a leading [#]: the strings [toQColor] reads an alpha from. *)
Definition hasAlphaForm (s : string) : bool :=
  Nat.eqb (QString.size s) 9 && startsWithHash s.

Definition alphaDigits (s : string) : string := QString.mid s 1 2.

Definition rgbName (s : string) : string := String "#" (QString.right s 6).

(** The colour of a whole string: that of a valid name, else invalid. *)
Definition directColor {E : Externals} (s : string) : QColor :=
  if isValidColor s then setNamedColor invalidQColor s else invalidQColor.



(** A first segment names an attached property when it is not empty and
    starts with an upper-case letter. *)
Definition isAttachedName {E : Externals} (a : string) : bool :=
  negb (QString.isEmpty a) && startsWith isUpper a.

(** The scope objects searched for a first segment. *)
Definition searchList {E : Externals} (chain : ScopeChain) (a : string)
  : list ObjectValue :=
  if isAttachedName a then
    match qmlTypes chain with
    | Some types => (qmlScopeObjects chain ++ [types])%list
    | None => qmlScopeObjects chain
    end
  else qmlScopeObjects chain.

(** "A first segment that resolves to a value that is not an object is
    reported once, as not having members, and the resolution stops." *)
Definition reportsNonObject (E : Externals) : Prop :=
  forall a tok nxt s v,
    globalLookup (searchList (_context s) a) a = Some v ->
    asObjectValue v = None ->
    checkScopeObjectMember (Some (QualifiedId (Some a) tok (Some nxt))) s
    = Ok None (addMessages s [mkMessage Error tok (doesNotHaveMembers a)]).

(** "A first segment that starts with an upper-case letter is looked up in
    the scope objects and the attached types, reported when nothing has it,
    and the resolver returns none." *)
Definition looksUpAttached (E : Externals) : Prop :=
  forall a tok nxt s,
    isAttachedName a = true ->
    checkScopeObjectMember (Some (QualifiedId (Some a) tok nxt)) s
    = Ok None
         (match globalLookup (searchList (_context s) a) a with
          | Some _ => s
          | None => addMessages s [mkMessage Error tok (notValidPropertyName a)]
          end).

Definition noScope : CheckState :=
  mkState [] (mkScopeChain [] (Some Sample.attached) []) [] false.

(** A tree without missing names: every object element has a type name
    that is not empty, every script binding a qualified id with a name,
    every identifier expression a name. *)
Definition hasName (q : option UiQualifiedId) : bool :=
  match q with
  | Some (QualifiedId (Some _) _ _) => true
  | _ => false
  end.

Definition hasTypeName (q : option UiQualifiedId) : bool :=
  match q with
  | Some (QualifiedId (Some n) _ _) => negb (QString.isEmpty n)
  | _ => false
  end.

Definition whenPresent (f : Node -> bool) (o : option Node) : bool :=
  match o with Some n => f n | None => true end.

Fixpoint wellNamed (n : Node) : bool :=
  match n with
  | UiProgram imports members =>
      forallb wellNamed imports && forallb wellNamed members
  | UiObjectDefinition typeId initializer =>
      hasTypeName typeId && whenPresent wellNamed initializer
  | UiObjectBinding _ typeId initializer =>
      hasTypeName typeId && whenPresent wellNamed initializer
  | UiScriptBinding qualifiedId statement =>
      hasName qualifiedId && whenPresent wellNamed statement
  | UiArrayBinding _ members => forallb wellNamed members
  | ExpressionStatement e => wellNamed e
  | IdentifierExpression name => negb (isNull name)
  | FieldMemberExpression base _ => wellNamed base
  | StringLiteral _ | NumericLiteral | TrueLiteral | FalseLiteral => true
  | UnaryMinusExpression e => wellNamed e
  | FunctionDeclaration formals body
  | FunctionExpression formals body =>
      whenPresent wellNamed formals && whenPresent wellNamed body
  | OtherNode children => forallb wellNamed children
  end.

(** An action that does not fault. *)
Definition safe {A} (m : M A) : Prop := forall s, m s <> Fault.

(** A document for the statements on whole runs: an [Item] with a binding
    that does not fit, an element of an unknown type, a handler with a
    function, a grouped property and an id. *)
Definition binding (property : string) (e : Node) : Node :=
  UiScriptBinding (Some (segment property None)) (Some (ExpressionStatement e)).

Definition element (type : string) (ms : list Node) : Node :=
  UiObjectDefinition (Some (segment type None)) (Some (OtherNode ms)).

Definition sampleDocument : Node :=
  UiProgram []
    [element "Item"
       [binding "id" (IdentifierExpression (Some "root"));
        binding "width" TrueLiteral;
        element "Rect" [binding "radius" NumericLiteral];
        binding "onClicked"
          (FunctionExpression None
             (Some (OtherNode [ExpressionStatement
                                 (IdentifierExpression (Some "x"))])));
        element "anchors" [binding "left" (IdentifierExpression (Some "p"))];
        UiObjectBinding (Some (segment "state" None))
                        (Some (segment "Item" None)) None]].

Definition sampleDiagnostics : list DiagnosticMessage :=
  Eval cbv in
    match @run sample (Some sampleDocument) noScope with
    | Ok ms _ => ms
    | Fault => []
    end.

(** ** Further vocabulary *)

(** The value at the end of a chain of members: from the value of a
    segment, through the named member of each object along the chain. *)
Fixpoint follow (idPart : UiQualifiedId) (value : Value) {struct idPart}
  : option Value :=
  match idPart with
  | QualifiedId _ _ None => Some value
  | QualifiedId _ _ (Some nxt) =>
      match asObjectValue value, qname nxt with
      | Some o, Some n =>
          match lookupMember o n with
          | Some v => follow nxt v
          | None => None
          end
      | _, _ => None
      end
  end.

(** A tree of script nodes only: no element, no binding. *)
Fixpoint scriptOnly (n : Node) : bool :=
  match n with
  | UiProgram _ _ | UiObjectDefinition _ _ | UiObjectBinding _ _ _
  | UiScriptBinding _ _ | UiArrayBinding _ _ => false
  | ExpressionStatement e => scriptOnly e
  | IdentifierExpression _ => true
  | FieldMemberExpression base _ => scriptOnly base
  | StringLiteral _ | NumericLiteral | TrueLiteral | FalseLiteral => true
  | UnaryMinusExpression e => scriptOnly e
  | FunctionDeclaration formals body
  | FunctionExpression formals body =>
      whenPresent scriptOnly formals && whenPresent scriptOnly body
  | OtherNode children => forallb scriptOnly children
  end.

(** The state [s] with one more error when [complains] holds. *)
Definition reported (s : CheckState) (complains : bool)
  (l : AST.SourceLocation) (text : string) : CheckState :=
  if complains then addMessages s [mkMessage Error l text] else s.

(** The file a url literal stands for: its local file, after the path of
    the document and a separator when the url is relative. *)
Definition urlTarget {E : Externals} (text : string) : string :=
  if urlIsRelative text
  then docPath ++ dirSeparator ++ urlToLocalFile text
  else urlToLocalFile text.

(** A qualified id written as its named segments: the chain that goes
    through [segments] and ends with [tail]. *)
Fixpoint chainOf (segments : list (string * AST.SourceLocation))
  (tail : option UiQualifiedId) : option UiQualifiedId :=
  match segments with
  | [] => tail
  | (n, tok) :: r => Some (QualifiedId (Some n) tok (chainOf r tail))
  end.

(** The value reached from [value] through the members named by
    [segments]. *)
Fixpoint walk (value : Value) (segments : list (string * AST.SourceLocation))
  : option Value :=
  match segments with
  | [] => Some value
  | (n, _) :: r =>
      match asObjectValue value with
      | Some o =>
          match lookupMember o n with
          | Some v => walk v r
          | None => None
          end
      | None => None
      end
  end.




(** The sample environment with an evaluator that gives undefined where
    the sample one gives nothing. *)
Definition sampleTotal : Externals :=
  sampleWith Sample.hashColor
    (fun chain e =>
       match Sample.evaluateLiteral chain e with
       | Some v => Some v
       | None => Some UndefinedValue
       end).

Definition isExpressionStatement (n : Node) : bool :=
  match n with ExpressionStatement _ => true | _ => false end.

(** The diagnostics that are not the error about an unknown type. *)
Definition isUnknownType (d : DiagnosticMessage) : bool :=
  String.eqb (message d) "unknown type".

Definition withoutTypeErrors (ms : list DiagnosticMessage)
  : list DiagnosticMessage :=
  filter (fun d => negb (isUnknownType d)) ms.

(** An action that does the same with and without the option to ignore
    type errors, but for the errors about unknown types that it reports
    only without it. *)
Definition typeBlind {A} (m : M A) : Prop :=
  forall c b,
    (forall pre pre',
        m (mkState pre c b false) = Fault /\
        m (mkState pre' c b true) = Fault) \/
    (exists a ms,
        (forall pre,
            m (mkState pre c b false) = Ok a (mkState (pre ++ ms) c b false)) /\
        (forall pre,
            m (mkState pre c b true)
            = Ok a (mkState (pre ++ withoutTypeErrors ms) c b true))).

(** The same for an action that may change the scope chain. *)
Definition typeBlindSetup (m : M unit) : Prop :=
  forall c b,
    exists ms c',
      (forall pre,
          m (mkState pre c b false) = Ok tt (mkState (pre ++ ms) c' b false)) /\
      (forall pre,
          m (mkState pre c b true)
          = Ok tt (mkState (pre ++ withoutTypeErrors ms) c' b true)).

(** The declared values the compatibility check has no rule for. *)
Definition hasNoRule (lhs : Value) : bool :=
  match lhs with
  | NullValue | UndefinedValue | Reference | ObjectV _ => true
  | _ => false
  end.

(** The diagnostics of a node visited on its own in a scope: none when
    the visit faults. *)
Definition diagnosticsOf {E : Externals} (n : Node) (c : ScopeChain)
  (b : list ScopeChain) (i : bool) : list DiagnosticMessage :=
  match accept n (mkState [] c b i) with
  | Ok _ s' => _messages s'
  | Fault => []
  end.

(** * Properties *)

Lemma scoped_ret {A} (a : A) : scoped (ret a).
Proof.
  intros c b i. right. exists a, []. intros pre.
  unfold ret. now rewrite app_nil_r.
Qed.

Lemma scoped_fault {A} : scoped (@fault A).
Proof. intros c b i. now left. Qed.

Lemma scoped_bind {A B} (m : M A) (f : A -> M B) :
  scoped m -> (forall a, scoped (f a)) -> scoped (bind m f).
Proof.
  intros Hm Hf c b i. unfold bind.
  destruct (Hm c b i) as [F | (a & ms & H)].
  - left. intros pre. now rewrite F.
  - destruct (Hf a c b i) as [F | (a' & ms' & H')].
    + left. intros pre. rewrite H. apply F.
    + right. exists a', (ms ++ ms')%list. intros pre.
      now rewrite H, H', app_assoc.
Qed.

Lemma scoped_append (d : DiagnosticMessage) : scoped (append d).
Proof. intros c b i. right. now exists tt, [d]. Qed.

Lemma scoped_scopeChain : scoped scopeChain.
Proof.
  intros c b i. right. exists c, []. intros pre.
  unfold scopeChain. simpl. now rewrite app_nil_r.
Qed.

Lemma scoped_ignoreTypeErrors : scoped ignoreTypeErrors.
Proof.
  intros c b i. right. exists i, []. intros pre.
  unfold ignoreTypeErrors. simpl. now rewrite app_nil_r.
Qed.

Create HintDb scoped.
#[local] Hint Resolve scoped_ret scoped_fault scoped_append scoped_scopeChain
  scoped_ignoreTypeErrors : scoped.

(** Splits an action along its binds and its case analyses. *)
Ltac scoped_step :=
  match goal with
  | |- scoped (bind _ _) => apply scoped_bind; [| intros ?]
  | |- scoped (error _ _) => apply scoped_append
  | |- scoped (warning _ _) => apply scoped_append
  | |- scoped (if ?b then _ else _) => destruct b
  | |- scoped (match ?o with Some _ => _ | None => _ end) => destruct o
  | |- scoped _ => solve [auto with scoped]
  end.

Lemma scoped_memberLookup (idPart : UiQualifiedId) :
  forall propertyName value, scoped (memberLookup idPart propertyName value).
Proof.
  induction idPart as [n tok nxt IH]. intros propertyName value.
  destruct nxt as [nxt|]; simpl; [| auto with scoped].
  inversion IH as [a IHnxt|]; subst.
  repeat scoped_step.
Qed.

Section Scoped.
Context {E : Externals}.

Lemma scoped_checkScopeObjectMember (id : option UiQualifiedId) :
  scoped (checkScopeObjectMember id).
Proof.
  unfold checkScopeObjectMember.
  repeat scoped_step. apply scoped_memberLookup.
Qed.

Lemma scoped_checkBinding (q : UiQualifiedId) (statement : option Node) :
  scoped (checkBinding q statement).
Proof.
  unfold checkBinding.
  apply scoped_bind; [apply scoped_checkScopeObjectMember | intros lhs].
  destruct lhs as [lhs|]; [| auto with scoped].
  destruct statement as [[]|]; auto with scoped.
  repeat scoped_step.
Qed.

Lemma scoped_visitUiScriptBinding (q : option UiQualifiedId)
  (statement : option Node) : scoped (visitUiScriptBinding q statement).
Proof.
  unfold visitUiScriptBinding.
  destruct q as [q|]; [| auto with scoped].
  destruct (qname q) as [propertyName|]; [| auto with scoped].
  destruct (_ && _); [| apply scoped_checkBinding].
  destruct statement as [stmt|]; [| auto with scoped].
  destruct stmt as [| | | | |e| | | | | | | | | |];
    try solve [repeat scoped_step].
  destruct e as [| | | | | |[id|]| | | | | | | | |];
    try solve [repeat scoped_step];
    repeat scoped_step; apply scoped_checkBinding.
Qed.

Lemma rescoping_ret : rescoping (ret tt).
Proof.
  intros c b i. exists [], c. intros pre. unfold ret. now rewrite app_nil_r.
Qed.

(** What [visitQmlObject] does between [push] and the initializer. *)
Lemma rescoping_unknownType (typeId : UiQualifiedId) :
  rescoping
    (if isNull (lookupType typeId) then
       ignore <- ignoreTypeErrors ;;
       (if negb ignore
        then error (qtoken typeId) "unknown type"
        else ret tt) ;;;
       clearQmlScopeObjects
     else ret tt).
Proof.
  destruct (isNull _); [| apply rescoping_ret].
  intros c b i. destruct i.
  - exists [], (mkScopeChain [] (qmlTypes c) (jsScopes c)). intros pre.
    cbn. now rewrite app_nil_r.
  - exists [mkMessage Error (qtoken typeId) "unknown type"],
           (mkScopeChain [] (qmlTypes c) (jsScopes c)).
    intros pre. reflexivity.
Qed.

(** A frame: [push], a change of the scope chain, a scoped body, [pop]. *)
Lemma scoped_frame (ast : Node) (setup body : M unit) :
  rescoping setup -> scoped body ->
  scoped (push ast ;;; setup ;;; body ;;; pop).
Proof.
  intros Hs Hb c b i.
  destruct (Hs (enterScope ast c) (c :: b) i) as (ms & c' & Hs').
  destruct (Hb c' (c :: b) i) as [F | ([] & ms' & Hb')].
  - left. intros pre. unfold bind, push. cbn. now rewrite Hs', F.
  - right. exists tt, (ms ++ ms')%list. intros pre.
    unfold bind, push. cbn. rewrite Hs', Hb'. cbn. now rewrite app_assoc.
Qed.

Lemma scoped_visitQmlObject (ast : Node) (typeId : option UiQualifiedId)
  (acceptInitializer : M unit) :
  scoped acceptInitializer ->
  scoped (visitQmlObject ast typeId acceptInitializer).
Proof.
  intros Hb. unfold visitQmlObject.
  destruct typeId as [typeId|]; [| auto with scoped].
  destruct (qname typeId) as [typeName|]; [| auto with scoped].
  destruct (QString.at_ typeName 0) as [ch|]; [| auto with scoped].
  destruct (_ && _).
  - apply scoped_bind; [apply scoped_checkScopeObjectMember | auto with scoped].
  - apply scoped_frame; [apply rescoping_unknownType | exact Hb].
Qed.

Lemma scoped_function (ast : Node) (formals body : M unit) :
  scoped formals -> scoped body ->
  scoped (formals ;;; push ast ;;; body ;;; pop).
Proof.
  intros Hf Hb. apply scoped_bind; [exact Hf | intros _].
  intros c b i.
  destruct (scoped_frame ast (ret tt) body rescoping_ret Hb c b i)
    as [F | (a & ms & H)].
  - left. intros pre. specialize (F pre). exact F.
  - right. exists a, ms. intros pre. specialize (H pre). exact H.
Qed.

Lemma scoped_Node_accept (f : Node -> M unit) (o : option Node) :
  option_all Node (fun n => scoped (f n)) o -> scoped (Node_accept f o).
Proof. intros H. destruct H; simpl; auto with scoped. Qed.

Lemma scoped_acceptEach (f : Node -> M unit) (l : list Node) :
  list_all Node (fun n => scoped (f n)) l -> scoped (acceptEach f l).
Proof.
  intros H. induction H; simpl; [auto with scoped |].
  apply scoped_bind; auto.
Qed.

(** The traversal of any tree is scoped. *)
Lemma scoped_accept (n : Node) : scoped (accept n).
Proof.
  induction n; simpl;
    auto using scoped_acceptEach, scoped_Node_accept, scoped_visitQmlObject,
               scoped_function with scoped.
  - apply scoped_bind; [now apply scoped_acceptEach | intros _].
    now apply scoped_acceptEach.
  - apply scoped_bind; [apply scoped_checkScopeObjectMember | intros _].
    auto using scoped_Node_accept, scoped_visitQmlObject.
  - apply scoped_bind; [apply scoped_visitUiScriptBinding | intros []];
      auto using scoped_Node_accept with scoped.
  - apply scoped_bind; [apply scoped_checkScopeObjectMember | intros _].
    now apply scoped_acceptEach.
Qed.

End Scoped.

(** ** The compatibility check of a binding and the evaluated value *)

Section Binding.
Context {E : Externals}.

Lemma resolved_has_name (q : UiQualifiedId) (s s' : CheckState) (lhs : Value) :
  checkScopeObjectMember (Some q) s = Ok (Some lhs) s' ->
  exists n, qname q = Some n /\ String.eqb n "id" && isNull (qnext q) = false.
Proof.
  unfold checkScopeObjectMember, bind, scopeChain.
  destruct (isEmptyList _); [discriminate |].
  destruct (qname q) as [n|]; [| discriminate].
  destruct (String.eqb n "id" && isNull (qnext q)) eqn:Hid; [discriminate |].
  intros _. now exists n.
Qed.


End Binding.




(** The two rules that read the evaluated value dereference it: without a
    value the check stops there. *)
Lemma value_rule_dereferences {E : Externals}
  (l : AST.SourceLocation) (lhs : Value) (ast : Node) :
  ruleReadsValue lhs ast = true ->
  AssignmentCheck l (Some lhs) None ast = None.
Proof.
  destruct lhs; simpl; try discriminate.
  - unfold visitNumberValue. destruct (castStringLiteral ast); [discriminate|reflexivity].
  - reflexivity.
Qed.

(** ** Missing names *)

(** C2: the resolver tests the names it reads, [visitQmlObject] and the
    [visit] of a script binding do not.  On an object definition or an
    object binding whose type name is missing, and on a script binding
    whose qualified id or whose name is missing, the traversal stops on the
    dereference of the null pointer; on a type name that is empty it stops
    on the first character that [at(0)] asks of the empty string. *)
Theorem missing_name_faults {E : Externals}
  (tok : AST.SourceLocation) (next q : option UiQualifiedId)
  (initializer statement : option Node) (s : CheckState) :
  accept (UiObjectDefinition (Some (QualifiedId None tok next)) initializer) s
  = Fault /\
  accept (UiObjectDefinition (Some (QualifiedId (Some EmptyString) tok next))
                             initializer) s
  = Fault /\
  accept (UiObjectBinding q (Some (QualifiedId None tok next)) initializer) s
  = Fault /\
  accept (UiScriptBinding (Some (QualifiedId None tok next)) statement) s
  = Fault /\
  accept (UiScriptBinding None statement) s = Fault.
Proof.
  repeat split.
  cbn. unfold bind.
  now destruct (checkScopeObjectMember q s).
Qed.

(** The resolver, on the same names, returns none and reports nothing. *)
Lemma resolver_tolerates_missing_name {E : Externals}
  (tok : AST.SourceLocation) (next : option UiQualifiedId) (s : CheckState) :
  checkScopeObjectMember None s = Ok None s /\
  checkScopeObjectMember (Some (QualifiedId None tok next)) s = Ok None s.
Proof.
  unfold checkScopeObjectMember, bind, scopeChain.
  destruct (isEmptyList _); now split.
Qed.

(** ** The id property *)

Section IdProperty.
Context {E : Externals}.
Variable tok : AST.SourceLocation.

Lemma resolver_skips_id (s : CheckState) :
  checkScopeObjectMember (Some (idProperty tok)) s = Ok None s.
Proof.
  unfold checkScopeObjectMember, bind, scopeChain.
  now destruct (isEmptyList _).
Qed.

Lemma checkBinding_id (statement : option Node) (s : CheckState) :
  checkBinding (idProperty tok) statement s = Ok true s.
Proof. unfold checkBinding, bind. now rewrite resolver_skips_id. Qed.

Lemma startsWith_not_empty (p : ascii -> bool) (v : string) :
  startsWith p v = true -> QString.isEmpty v = false.
Proof. now destruct v. Qed.

Lemma upper_not_lower (v : string) :
  startsWith isUpper v = true -> startsWith isLower v = false.
Proof.
  unfold startsWith. destruct (QString.at_ v 0); [| reflexivity].
  apply isUpper_not_isLower.
Qed.

(** A lower-case identifier: nothing is reported. *)
Lemma id_identifier_lower (i : string) (s : CheckState) :
  startsWith isLower i = true ->
  accept (idBinding tok (IdentifierExpression (Some i))) s = Ok tt s.
Proof.
  intros H. cbn. unfold bind.
  rewrite (startsWith_not_empty _ _ H), H. cbn.
  now rewrite checkBinding_id.
Qed.

(** A string literal: the warning, then the test of the first letter. *)
Lemma id_string (v : string) (s : CheckState) :
  accept (idBinding tok (StringLiteral v)) s =
  let w := mkMessage Warning (statementLocation (StringLiteral v))
                     "using string literals for ids is discouraged" in
  if QString.isEmpty v || negb (startsWith isLower v)
  then Ok tt (addMessages s
                [w; mkMessage Error (statementLocation (StringLiteral v))
                              "ids must be lower case"])
  else Ok tt (addMessages s [w]).
Proof.
  cbn. unfold bind, warning, append. cbn.
  destruct (QString.isEmpty v || negb (startsWith isLower v)); cbn.
  - unfold addMessages. cbn. now rewrite <- app_assoc.
  - unfold bind. now rewrite checkBinding_id.
Qed.

(** An identifier that does not start with a lower-case letter. *)
Lemma id_identifier_not_lower (i : string) (s : CheckState) :
  startsWith isLower i = false ->
  accept (idBinding tok (IdentifierExpression (Some i))) s =
  Ok tt (addMessages s
           [mkMessage Error (statementLocation (IdentifierExpression (Some i)))
                      "ids must be lower case"]).
Proof.
  intros H. cbn. unfold bind. rewrite H, orb_true_r. reflexivity.
Qed.

(** Neither an identifier nor a string literal. *)
Lemma id_other_expression (e : Node) (s : CheckState) :
  isIdentifierOrString e = false ->
  accept (idBinding tok e) s =
  Ok tt (addMessages s [mkMessage Error (statementLocation e) "expected id"]).
Proof. intros H. destruct e; try discriminate; reflexivity. Qed.

End IdProperty.

(** C3: [id: foo] reports nothing; [id: "foo"] reports the one warning;
    [id: Foo] reports the one error "ids must be lower case"; an expression
    that is neither an identifier nor a string literal, as in [id: 42],
    reports the one error "expected id". *)
Theorem id_binding_diagnostics {E : Externals}
  (tok : AST.SourceLocation) (s : CheckState) :
  (forall i, startsWith isLower i = true ->
     accept (idBinding tok (IdentifierExpression (Some i))) s = Ok tt s) /\
  (forall v, startsWith isLower v = true ->
     accept (idBinding tok (StringLiteral v)) s =
     Ok tt (addMessages s
              [mkMessage Warning (statementLocation (StringLiteral v))
                         "using string literals for ids is discouraged"])) /\
  (forall i, startsWith isUpper i = true ->
     accept (idBinding tok (IdentifierExpression (Some i))) s =
     Ok tt (addMessages s
              [mkMessage Error (statementLocation (IdentifierExpression (Some i)))
                         "ids must be lower case"])) /\
  (forall e, isIdentifierOrString e = false ->
     accept (idBinding tok e) s =
     Ok tt (addMessages s [mkMessage Error (statementLocation e) "expected id"])).
Proof.
  repeat split.
  - intros i H. now apply id_identifier_lower.
  - intros v H. rewrite id_string.
    now rewrite (startsWith_not_empty _ _ H), H.
  - intros i H. apply id_identifier_not_lower. now apply upper_not_lower.
  - intros e H. now apply id_other_expression.
Qed.

Lemma id_binding_diagnostics_witness :
  @accept sample (idBinding Sample.noLoc (IdentifierExpression (Some "foo"))) inItem
  = Ok tt inItem /\
  @accept sample (idBinding Sample.noLoc (StringLiteral "foo")) inItem
  = Ok tt (addMessages inItem
             [mkMessage Warning (AST.mkLoc 4 3 1 5)
                        "using string literals for ids is discouraged"]) /\
  @accept sample (idBinding Sample.noLoc (IdentifierExpression (Some "Foo"))) inItem
  = Ok tt (addMessages inItem
             [mkMessage Error (AST.mkLoc 4 3 1 5) "ids must be lower case"]) /\
  @accept sample (idBinding Sample.noLoc NumericLiteral) inItem
  = Ok tt (addMessages inItem
             [mkMessage Error (AST.mkLoc 4 3 1 5) "expected id"]).
Proof.
  destruct (@id_binding_diagnostics sample Sample.noLoc inItem)
    as (Ha & Hb & Hc & Hd).
  split; [apply Ha; reflexivity |].
  split; [apply Hb; reflexivity |].
  split; [apply Hc; reflexivity |].
  apply Hd; reflexivity.
Defined.

(** C10: a string literal that is not empty and does not start with a
    lower-case letter, as in [id: "Foo"], reports two diagnostics: the
    warning about string literals, then the error about the case. *)
Theorem id_string_not_lower_case {E : Externals}
  (tok : AST.SourceLocation) (v : string) (s : CheckState) :
  QString.isEmpty v = false ->
  startsWith isLower v = false ->
  accept (idBinding tok (StringLiteral v)) s =
  Ok tt (addMessages s
           [mkMessage Warning (statementLocation (StringLiteral v))
                      "using string literals for ids is discouraged";
            mkMessage Error (statementLocation (StringLiteral v))
                      "ids must be lower case"]).
Proof.
  intros _ H. rewrite id_string, H. now rewrite orb_true_r.
Qed.

Lemma id_string_not_lower_case_witness :
  @accept sample (idBinding Sample.noLoc (StringLiteral "Foo")) inItem =
  Ok tt (addMessages inItem
           [mkMessage Warning (AST.mkLoc 4 3 1 5)
                      "using string literals for ids is discouraged";
            mkMessage Error (AST.mkLoc 4 3 1 5) "ids must be lower case"]).
Proof.
  apply (@id_string_not_lower_case sample Sample.noLoc "Foo" inItem);
    reflexivity.
Defined.

(** ** Colours *)

Section ColourCases.
Context {E : Externals}.

Lemma toQColor_alpha (s : string) (a : Z) :
  hasAlphaForm s = true -> toInt16 (alphaDigits s) = Some a ->
  toQColor s = if isValidColor (rgbName s)
               then setAlpha (setNamedColor invalidQColor (rgbName s)) a
               else invalidQColor.
Proof.
  unfold toQColor. fold (hasAlphaForm s) (alphaDigits s) (rgbName s).
  now intros -> ->.
Qed.

Lemma toQColor_alpha_failure (s : string) :
  hasAlphaForm s = true -> toInt16 (alphaDigits s) = None ->
  toQColor s = invalidQColor.
Proof.
  unfold toQColor. fold (hasAlphaForm s) (alphaDigits s).
  now intros -> ->.
Qed.

Lemma toQColor_whole (s : string) :
  hasAlphaForm s = false -> toQColor s = directColor s.
Proof.
  unfold toQColor. fold (hasAlphaForm s). now intros ->.
Qed.

End ColourCases.





(** ** The resolver *)

Section Resolver.
Context {E : Externals}.

Lemma attached_is_not_id (a : string) :
  isAttachedName a = true -> String.eqb a "id" = false.
Proof.
  intros H. destruct (String.eqb a "id") eqn:Ha; [| reflexivity].
  apply String.eqb_eq in Ha. subst a.
  unfold isAttachedName, startsWith in H. cbn in H.
  assert (Hi : isLower "i"%char = true) by now apply isLower_ascii.
  destruct (isUpper "i"%char) eqn:Hu; [| discriminate].
  apply isUpper_not_isLower in Hu. congruence.
Qed.

Lemma searchList_not_empty (chain : ScopeChain) (a : string) :
  isEmptyList (qmlScopeObjects chain) = false ->
  isEmptyList (searchList chain a) = false.
Proof.
  unfold searchList. intros H.
  destruct (isAttachedName a); [| exact H].
  destruct (qmlTypes chain); [| exact H].
  now destruct (qmlScopeObjects chain).
Qed.

(** The resolver after its guards. *)
Lemma resolver_first_segment (a : string) (tok : AST.SourceLocation)
  (nxt : option UiQualifiedId) (s : CheckState) :
  isEmptyList (qmlScopeObjects (_context s)) = false ->
  String.eqb a "id" && isNull nxt = false ->
  checkScopeObjectMember (Some (QualifiedId (Some a) tok nxt)) s =
  ((if isNull (globalLookup (searchList (_context s) a) a)
    then error tok (notValidPropertyName a)
    else ret tt) ;;;
   if isAttachedName a then ret None
   else memberLookup (QualifiedId (Some a) tok nxt) a
                     (globalLookup (searchList (_context s) a) a)) s.
Proof.
  intros Hne Hid.
  unfold checkScopeObjectMember, bind at 1, scopeChain.
  rewrite Hne. cbn [qname qnext qtoken]. rewrite Hid.
  fold (isAttachedName a). fold (searchList (_context s) a).
  now rewrite (searchList_not_empty _ a Hne).
Qed.

Lemma lookup_needs_objects (l : list ObjectValue) (a : string) (v : Value) :
  globalLookup l a = Some v -> isEmptyList l = false.
Proof. now destruct l. Qed.

End Resolver.

(** C5, as it is written, fails on an attached property: a first segment
    with an upper-case first letter that resolves to a number is not
    reported. *)
Lemma attached_non_object_not_reported : ~ reportsNonObject sample.
Proof.
  intros H.
  specialize (H "Behavior" Sample.noLoc (segment "x" (Some (segment "y" None)))
                inItem NumberValue eq_refl eq_refl).
  vm_compute in H. discriminate H.
Qed.

(** C5 (amended): for a chain [a.b.c] whose first segment does not name an
    attached property and resolves, in the scope objects, to a value that
    is not an object, the resolver reports the one error "'a' does not have
    members" and returns none. *)
Theorem non_object_has_no_members {E : Externals}
  (a : string) (tok : AST.SourceLocation) (nxt : UiQualifiedId)
  (s : CheckState) (v : Value) :
  isAttachedName a = false ->
  globalLookup (qmlScopeObjects (_context s)) a = Some v ->
  asObjectValue v = None ->
  checkScopeObjectMember (Some (QualifiedId (Some a) tok (Some nxt))) s
  = Ok None (addMessages s [mkMessage Error tok (doesNotHaveMembers a)]).
Proof.
  intros Hatt Hv Hobj.
  rewrite resolver_first_segment;
    [| exact (lookup_needs_objects _ _ _ Hv) | now rewrite andb_false_r].
  unfold searchList. rewrite Hatt, Hv.
  cbn. unfold bind. cbn. now rewrite Hobj.
Qed.

Lemma non_object_has_no_members_witness :
  @checkScopeObjectMember sample
     (Some (segment "width" (Some (segment "b" (Some (segment "c" None))))))
     inItem
  = Ok None (addMessages inItem
               [mkMessage Error Sample.noLoc "'width' does not have members"]).
Proof.
  apply (@non_object_has_no_members sample "width" Sample.noLoc
           (segment "b" (Some (segment "c" None))) inItem NumberValue);
    reflexivity.
Defined.

(** C6: a dotted id whose first segment no scope object has is reported
    twice by one call of the resolver: as not a valid property name, and,
    the resolver going on with the null value, as not having members. *)
Theorem unresolved_dotted_id_reported_twice {E : Externals}
  (a : string) (tok : AST.SourceLocation) (nxt : UiQualifiedId)
  (s : CheckState) :
  isEmptyList (qmlScopeObjects (_context s)) = false ->
  isAttachedName a = false ->
  globalLookup (qmlScopeObjects (_context s)) a = None ->
  checkScopeObjectMember (Some (QualifiedId (Some a) tok (Some nxt))) s
  = Ok None (addMessages s [mkMessage Error tok (notValidPropertyName a);
                            mkMessage Error tok (doesNotHaveMembers a)]).
Proof.
  intros Hne Hatt Hv.
  rewrite resolver_first_segment; [| exact Hne | now rewrite andb_false_r].
  unfold searchList. rewrite Hatt, Hv.
  cbn. unfold addMessages. cbn. now rewrite <- app_assoc.
Qed.

Lemma unresolved_dotted_id_reported_twice_witness :
  @checkScopeObjectMember sample (Some (segment "wdth" (Some (segment "x" None))))
     inItem
  = Ok None (addMessages inItem
               [mkMessage Error Sample.noLoc "'wdth' is not a valid property name";
                mkMessage Error Sample.noLoc "'wdth' does not have members"]).
Proof.
  apply (@unresolved_dotted_id_reported_twice sample "wdth" Sample.noLoc
           (segment "x" None) inItem); reflexivity.
Defined.

(** The compatibility check returns its one message. *)
Lemma binding_adds_at_most_one {E : Externals}
  (q : UiQualifiedId) (statement : option Node) (s s' s'' : CheckState)
  (lhs : option Value) (descend : bool) :
  checkScopeObjectMember (Some q) s = Ok lhs s' ->
  checkBinding q statement s = Ok descend s'' ->
  s'' = s' \/ exists m, s'' = addMessages s' [m].
Proof.
  unfold checkBinding, bind at 1. intros -> H.
  destruct lhs as [lhs|]; [| left; now inversion H].
  destruct statement as [[]|]; try (left; now inversion H).
  unfold bind, scopeChain in H.
  destruct (AssignmentCheck _ _ _ _) as [m|]; [| discriminate].
  destruct (negb _); inversion H; [right; now exists m | now left].
Qed.

(** C7, as it is written, fails when the context has no scope object: the
    resolver returns before the attached types are added, and reports
    nothing. *)
Lemma attached_not_looked_up_without_scope : ~ looksUpAttached sample.
Proof.
  intros H. specialize (H "Component" Sample.noLoc None noScope eq_refl).
  vm_compute in H. discriminate H.
Qed.

(** C7 (amended): when the context has a scope object, a first segment
    that is not empty and starts with an upper-case letter is looked up in
    the scope objects followed by the attached types, the scope chain being
    left as it was; it is reported as not a valid property name when none
    of them has it; the resolver then returns none, whatever the lookup
    gave and whatever segments follow. *)
Theorem attached_property_lookup {E : Externals}
  (a : string) (tok : AST.SourceLocation) (nxt : option UiQualifiedId)
  (s : CheckState) :
  isEmptyList (qmlScopeObjects (_context s)) = false ->
  QString.isEmpty a = false ->
  startsWith isUpper a = true ->
  checkScopeObjectMember (Some (QualifiedId (Some a) tok nxt)) s
  = Ok None
       (match globalLookup
                (match qmlTypes (_context s) with
                 | Some types => qmlScopeObjects (_context s) ++ [types]
                 | None => qmlScopeObjects (_context s)
                 end)%list a with
        | Some _ => s
        | None => addMessages s [mkMessage Error tok (notValidPropertyName a)]
        end).
Proof.
  intros Hne Hempty Hupper.
  assert (Hatt : isAttachedName a = true)
    by (unfold isAttachedName; now rewrite Hempty, Hupper).
  rewrite resolver_first_segment;
    [| exact Hne | now rewrite (attached_is_not_id a Hatt)].
  unfold searchList. rewrite Hatt.
  now destruct (globalLookup _ a).
Qed.

Lemma attached_property_lookup_witness :
  @checkScopeObjectMember sample
     (Some (segment "Keys" (Some (segment "onPressed" None)))) inItem
  = Ok None inItem /\
  @checkScopeObjectMember sample
     (Some (segment "Component" (Some (segment "onCompleted" None)))) inItem
  = Ok None (addMessages inItem
               [mkMessage Error Sample.noLoc
                          "'Component' is not a valid property name"]).
Proof.
  split.
  - apply (@attached_property_lookup sample "Keys" Sample.noLoc
             (Some (segment "onPressed" None)) inItem); reflexivity.
  - apply (@attached_property_lookup sample "Component" Sample.noLoc
             (Some (segment "onCompleted" None)) inItem); reflexivity.
Defined.

(** ** Scope frames and repeated runs *)

Lemma safe_ret {A} (a : A) : safe (ret a).
Proof. intros s. discriminate. Qed.

Lemma safe_bind {A B} (m : M A) (f : A -> M B) :
  safe m -> (forall a, safe (f a)) -> safe (bind m f).
Proof.
  intros Hm Hf s. unfold bind. specialize (Hm s).
  destruct (m s) as [| a s']; [contradiction | apply Hf].
Qed.

Lemma safe_append (d : DiagnosticMessage) : safe (append d).
Proof. intros s. discriminate. Qed.

Lemma safe_scopeChain : safe scopeChain.
Proof. intros s. discriminate. Qed.

Lemma safe_ignoreTypeErrors : safe ignoreTypeErrors.
Proof. intros s. discriminate. Qed.

Create HintDb safe.
#[local] Hint Resolve safe_ret safe_append safe_scopeChain
  safe_ignoreTypeErrors : safe.

Ltac safe_step :=
  match goal with
  | |- safe (bind _ _) => apply safe_bind; [| intros ?]
  | |- safe (error _ _) => apply safe_append
  | |- safe (warning _ _) => apply safe_append
  | |- safe (if ?b then _ else _) => destruct b
  | |- safe (match ?o with Some _ => _ | None => _ end) => destruct o
  | |- safe _ => solve [auto with safe]
  end.

Lemma safe_memberLookup (idPart : UiQualifiedId) :
  forall propertyName value, safe (memberLookup idPart propertyName value).
Proof.
  induction idPart as [n tok nxt IH]. intros propertyName value.
  destruct nxt as [nxt|]; simpl; [| auto with safe].
  inversion IH as [a IHnxt|]; subst.
  repeat safe_step.
Qed.

(** What a scoped action returns. *)
Lemma scoped_result {A} (m : M A) (s s' : CheckState) (a : A) :
  scoped m -> m s = Ok a s' -> exists ms, s' = addMessages s ms.
Proof.
  intros Hm H. destruct s as [pre c b i].
  destruct (Hm c b i) as [F | (a' & ms & Hok)].
  - rewrite F in H. discriminate.
  - rewrite Hok in H. inversion H. now exists ms.
Qed.

Section Frames.
Context {E : Externals}.

(** The evaluator gives a value for every expression. *)
Hypothesis evaluates : forall chain e, evaluate chain e <> None.

Lemma safe_checkScopeObjectMember (id : option UiQualifiedId) :
  safe (checkScopeObjectMember id).
Proof.
  unfold checkScopeObjectMember.
  repeat safe_step. apply safe_memberLookup.
Qed.

Lemma check_of_value (l : AST.SourceLocation) (lhs rhs : Value) (ast : Node) :
  AssignmentCheck l (Some lhs) (Some rhs) ast <> None.
Proof.
  unfold AssignmentCheck.
  destruct lhs; simpl;
    unfold visitNumberValue, visitBooleanValue, visitColorValue,
      visitStringValue, visitAnchorLineValue;
    repeat match goal with
      | |- context [match castStringLiteral ?a with _ => _ end] =>
          destruct (castStringLiteral a)
      | |- context [if ?b then _ else _] => destruct b
      end; discriminate.
Qed.

Lemma safe_checkBinding (q : UiQualifiedId) (statement : option Node) :
  safe (checkBinding q statement).
Proof.
  unfold checkBinding.
  apply safe_bind; [apply safe_checkScopeObjectMember | intros lhs].
  destruct lhs as [lhs|]; [| auto with safe].
  destruct statement as [[]|]; auto with safe.
  apply safe_bind; [auto with safe | intros chain].
  specialize (evaluates chain expression).
  destruct (evaluate chain expression) as [rhs|]; [| contradiction].
  pose proof (check_of_value
                (locationFromRange
                   (firstSourceLocation (ExpressionStatement expression))
                   (lastSourceLocation (ExpressionStatement expression)))
                lhs rhs expression) as Hc.
  destruct (AssignmentCheck _ _ _ _); [| contradiction].
  repeat safe_step.
Qed.

Lemma safe_visitUiScriptBinding (q : option UiQualifiedId)
  (statement : option Node) :
  hasName q = true -> whenPresent wellNamed statement = true ->
  safe (visitUiScriptBinding q statement).
Proof.
  intros Hq Hs. unfold visitUiScriptBinding.
  destruct q as [[[propertyName|] tok nxt]|]; try discriminate.
  cbn [qname qnext].
  destruct (_ && _); [| apply safe_checkBinding].
  destruct statement as [stmt|]; [| auto with safe].
  destruct stmt as [| | | | |e| | | | | | | | | |];
    try solve [repeat safe_step].
  destruct e as [| | | | | |[id|]| | | | | | | | |];
    try solve [repeat safe_step]; try discriminate;
    repeat safe_step; apply safe_checkBinding.
Qed.

Lemma safe_frame (ast : Node) (setup body : M unit) :
  rescoping setup -> scoped body -> safe body ->
  safe (push ast ;;; setup ;;; body ;;; pop).
Proof.
  intros Hs Hb Hsafe [pre c b i].
  destruct (Hs (enterScope ast c) (c :: b) i) as (ms & c' & Hs').
  unfold bind, push. cbn. rewrite Hs'.
  destruct (Hb c' (c :: b) i) as [F | ([] & ms' & Hb')].
  - exfalso. exact (Hsafe _ (F (pre ++ ms)%list)).
  - rewrite Hb'. discriminate.
Qed.

Lemma safe_visitQmlObject (ast : Node) (typeId : option UiQualifiedId)
  (acceptInitializer : M unit) :
  hasTypeName typeId = true ->
  scoped acceptInitializer -> safe acceptInitializer ->
  safe (visitQmlObject ast typeId acceptInitializer).
Proof.
  intros Ht Hb Hsafe. unfold visitQmlObject.
  destruct typeId as [[[typeName|] tok nxt]|]; try discriminate.
  cbn [qname qnext qtoken].
  destruct typeName as [| ch rest]; [discriminate |]. cbn [QString.at_ get].
  destruct (_ && _).
  - apply safe_bind; [apply safe_checkScopeObjectMember | auto with safe].
  - apply safe_frame; [apply rescoping_unknownType | exact Hb | exact Hsafe].
Qed.

Lemma safe_function (ast : Node) (formals body : M unit) :
  safe formals -> scoped body -> safe body ->
  safe (formals ;;; push ast ;;; body ;;; pop).
Proof.
  intros Hf Hb Hsafe. apply safe_bind; [exact Hf | intros _].
  exact (safe_frame ast (ret tt) body rescoping_ret Hb Hsafe).
Qed.

Lemma safe_Node_accept (o : option Node) :
  option_all Node (fun n => wellNamed n = true -> safe (accept n)) o ->
  whenPresent wellNamed o = true -> safe (Node_accept accept o).
Proof. intros H Hw. destruct H; simpl; auto with safe. Qed.

Lemma safe_acceptEach (l : list Node) :
  list_all Node (fun n => wellNamed n = true -> safe (accept n)) l ->
  forallb wellNamed l = true -> safe (acceptEach accept l).
Proof.
  intros H. induction H; simpl; intros Hw; [auto with safe |].
  apply andb_true_iff in Hw as [Ha Hl].
  apply safe_bind; auto.
Qed.

Lemma scoped_Node_accept_accept (o : option Node) :
  scoped (Node_accept accept o).
Proof. destruct o; simpl; [apply scoped_accept | auto with scoped]. Qed.

(** The traversal of a tree without missing names does not fault. *)
Lemma safe_accept (n : Node) : wellNamed n = true -> safe (accept n).
Proof.
  induction n; simpl; intros Hw;
    try apply andb_true_iff in Hw as [Hw1 Hw2];
    auto using safe_acceptEach with safe.
  - apply safe_bind; [| intros _]; now apply safe_acceptEach.
  - apply safe_visitQmlObject;
      auto using safe_Node_accept, scoped_Node_accept_accept.
  - apply safe_bind; [apply safe_checkScopeObjectMember | intros _].
    apply safe_visitQmlObject;
      auto using safe_Node_accept, scoped_Node_accept_accept.
  - apply safe_bind; [now apply safe_visitUiScriptBinding | intros []];
      auto using safe_Node_accept with safe.
  - apply safe_bind; [apply safe_checkScopeObjectMember | intros _].
    now apply safe_acceptEach.
  - apply safe_function;
      auto using safe_Node_accept, scoped_Node_accept_accept.
  - apply safe_function;
      auto using safe_Node_accept, scoped_Node_accept_accept.
Qed.

(** A run on a document without missing names returns its diagnostics. *)
Lemma run_completes (ast : option Node) (s : CheckState) :
  whenPresent wellNamed ast = true ->
  exists ms s', run ast s = Ok ms s'.
Proof.
  intros Hw. unfold run, bind, clearMessages.
  destruct ast as [n|]; simpl.
  - pose proof (safe_accept n Hw
                  (mkState [] (_context s) (_scopeBuilder s)
                           (_ignoreTypeErrors s))) as Hn.
    destruct (accept n _) as [| [] s']; [contradiction |].
    now eexists _, _.
  - now eexists _, _.
Qed.

End Frames.

(** C8: pushes and pops are balanced over every node and over a whole
    run: when the traversal returns, the scope builder has the depth it
    had before. *)
Theorem scope_depth_balanced {E : Externals} :
  (forall n s s', accept n s = Ok tt s' -> depth s' = depth s) /\
  (forall ast s ms s', run ast s = Ok ms s' -> depth s' = depth s).
Proof.
  split.
  - intros n s s' H.
    destruct (scoped_result _ _ _ _ (scoped_accept n) H) as (ms & ->).
    reflexivity.
  - intros ast s ms s' H. unfold run, bind, clearMessages, messages in H.
    destruct ast as [n|]; simpl in H.
    + destruct (accept n _) as [| [] s1] eqn:Hn; [discriminate |].
      destruct (scoped_result _ _ _ _ (scoped_accept n) Hn) as (ms1 & ->).
      now inversion H.
    + now inversion H.
Qed.

Lemma scope_depth_balanced_witness :
  @run sample (Some sampleDocument) noScope
  = Ok sampleDiagnostics
       (mkState sampleDiagnostics (_context noScope) [] false) /\
  depth (mkState sampleDiagnostics (_context noScope) [] false) = depth noScope /\
  List.length sampleDiagnostics = 3%nat.
Proof.
  split; [vm_compute; reflexivity |].
  split; [| reflexivity].
  apply (proj2 (@scope_depth_balanced sample) (Some sampleDocument) noScope
               sampleDiagnostics).
  vm_compute. reflexivity.
Defined.

(** C9: a second run on the same checker gives the diagnostics of the
    first, in the same order: the first run leaves the scope chain and the
    scope builder as it found them, and the second starts from an empty
    list of messages. *)
Theorem run_twice {E : Externals}
  (ast : option Node) (s s' : CheckState) (ms : list DiagnosticMessage) :
  run ast s = Ok ms s' -> run ast s' = Ok ms s'.
Proof.
  intros H. unfold run, bind, clearMessages, messages in *.
  destruct ast as [n|]; simpl in *.
  - destruct (accept n _) as [| [] s1] eqn:Hn; [discriminate |].
    inversion H; subst; clear H.
    destruct s as [pre c b i]. simpl in *.
    destruct (scoped_accept n c b i) as [F | ([] & ms & Hok)].
    + rewrite F in Hn. discriminate.
    + rewrite Hok in Hn. inversion Hn; subst; clear Hn. simpl.
      now rewrite Hok.
  - now inversion H.
Qed.

Lemma run_twice_witness :
  @run sample (Some sampleDocument) noScope
  = Ok sampleDiagnostics
       (mkState sampleDiagnostics (_context noScope) [] false) /\
  @run sample (Some sampleDocument)
       (mkState sampleDiagnostics (_context noScope) [] false)
  = Ok sampleDiagnostics
       (mkState sampleDiagnostics (_context noScope) [] false).
Proof.
  split; [vm_compute; reflexivity |].
  apply (@run_twice sample (Some sampleDocument) noScope).
  vm_compute. reflexivity.
Defined.

(** * Further properties of the code *)

(** ** Source ranges *)

Lemma wrap32_idem (z : Z) : AST.wrap32 (AST.wrap32 z) = AST.wrap32 z.
Proof. unfold AST.wrap32. now rewrite Z.mod_mod. Qed.

(** X1: the range from [start] to [end] begins where [start] begins, on
    its line and column, and ends where [end] ends, also when the 32-bit
    arithmetic wraps around. *)
Theorem locationFromRange_covers (start end_ : AST.SourceLocation) :
  AST.begin_ (locationFromRange start end_) = AST.begin_ start /\
  AST.startLine (locationFromRange start end_) = AST.startLine start /\
  AST.startColumn (locationFromRange start end_) = AST.startColumn start /\
  AST.end_ (locationFromRange start end_) = AST.end_ end_.
Proof.
  repeat split. unfold locationFromRange, AST.end_, AST.begin_. cbn.
  unfold AST.wrap32. rewrite Z.add_mod_idemp_r by lia.
  replace (AST.offset start
           + ((AST.offset end_ + AST.length end_) mod 2 ^ 32
              - AST.offset start))%Z
    with ((AST.offset end_ + AST.length end_) mod 2 ^ 32)%Z by lia.
  now rewrite Z.mod_mod.
Qed.

(** X2: when [end] ends at or after the beginning of [start] and below
    2^32, the length of the range is the distance between the two. *)
Theorem locationFromRange_length (start end_ : AST.SourceLocation) :
  (AST.offset start <= AST.offset end_ + AST.length end_ < 2 ^ 32)%Z ->
  (0 <= AST.offset start)%Z ->
  AST.length (locationFromRange start end_)
  = (AST.offset end_ + AST.length end_ - AST.offset start)%Z.
Proof.
  intros H H0. unfold locationFromRange, AST.end_, AST.begin_, AST.wrap32. cbn.
  rewrite (Z.mod_small (AST.offset end_ + AST.length end_)) by lia.
  apply Z.mod_small. lia.
Qed.

Lemma locationFromRange_length_witness :
  AST.length (locationFromRange (AST.mkLoc 10 3 1 11) (AST.mkLoc 20 5 2 4))
  = 15%Z.
Proof.
  apply (locationFromRange_length (AST.mkLoc 10 3 1 11) (AST.mkLoc 20 5 2 4));
    cbn; lia.
Defined.

(** ** Colours *)

Section ColourValidity.
Context {E : Externals}.

Lemma substring_length_le (n m : nat) (s : string) :
  (String.length (substring n m s) <= m)%nat.
Proof.
  revert n m. induction s as [| c s IH]; intros [| n] [| m]; cbn;
    try lia; try apply IH.
  specialize (IH 0%nat m). lia.
Qed.

Lemma rgbName_not_alpha_form (s : string) : hasAlphaForm (rgbName s) = false.
Proof.
  unfold hasAlphaForm, rgbName, QString.right, QString.size.
  pose proof (substring_length_le (String.length s - 6) 6 s) as H.
  destruct (Nat.eqb (String.length
                       (String "#" (substring (String.length s - 6) 6 s))) 9)
    eqn:Hl; [| reflexivity].
  apply Nat.eqb_eq in Hl. cbn in Hl. lia.
Qed.

Lemma setNamedColor_valid (c : QColor) (n : string) :
  isValidColor n = true -> isValid (setNamedColor c n) = true.
Proof.
  unfold isValidColor, setNamedColor. intros H.
  apply andb_true_iff in H as [_ H]. now destruct (namedColor n).
Qed.

Lemma directColor_valid (s : string) :
  isValid (directColor s) = isValidColor s.
Proof.
  unfold directColor. destruct (isValidColor s) eqn:H; [| reflexivity].
  now apply setNamedColor_valid.
Qed.

End ColourValidity.

(** X3: [toQColor] gives a valid colour exactly when the string has the
    alpha form, its alpha parses and [#] with its last six characters is a
    colour name, or when it has not the alpha form and is a colour name. *)
Theorem toQColor_valid {E : Externals} (s : string) :
  isValid (toQColor s) =
  if hasAlphaForm s
  then match toInt16 (alphaDigits s) with
       | Some _ => isValidColor (rgbName s)
       | None => false
       end
  else isValidColor s.
Proof.
  destruct (hasAlphaForm s) eqn:Hf.
  - destruct (toInt16 (alphaDigits s)) as [a|] eqn:Ha.
    + rewrite (toQColor_alpha s a Hf Ha).
      destruct (isValidColor (rgbName s)) eqn:Hv; [| reflexivity].
      cbn. now apply setNamedColor_valid.
    + now rewrite (toQColor_alpha_failure s Hf Ha).
  - rewrite (toQColor_whole s Hf). apply directColor_valid.
Qed.

(** X4: the colour of a string of the alpha form whose alpha parses is the
    colour [toQColor] gives to [#] with its last six characters, with the
    alpha set to the parsed one when that colour is valid. *)
Theorem toQColor_of_rgb {E : Externals} (s : string) (a : Z) :
  hasAlphaForm s = true ->
  toInt16 (alphaDigits s) = Some a ->
  toQColor s =
  if isValid (toQColor (rgbName s))
  then setAlpha (toQColor (rgbName s)) a
  else invalidQColor.
Proof.
  intros Hf Ha. rewrite (toQColor_alpha s a Hf Ha).
  rewrite (toQColor_whole (rgbName s) (rgbName_not_alpha_form s)).
  rewrite directColor_valid. unfold directColor.
  now destruct (isValidColor (rgbName s)).
Qed.

Lemma toQColor_of_rgb_witness :
  @toQColor sample "#80FF0000"
  = setAlpha (@toQColor sample "#FF0000") 128 /\
  @toQColor sample "#FF0000" = mkColor true 16711680 255.
Proof.
  split; [| reflexivity].
  apply (@toQColor_of_rgb sample "#80FF0000" 128); reflexivity.
Defined.

(** ** The rules of the compatibility check *)

Section Rules.
Context {E : Externals}.

(** A binding that resolves: the message of the compatibility check is
    appended when it has a text. *)
Lemma checked_binding (q : UiQualifiedId) (expr : Node) (s s' : CheckState)
  (lhs : Value) (m : DiagnosticMessage) :
  checkScopeObjectMember (Some q) s = Ok (Some lhs) s' ->
  AssignmentCheck (statementLocation expr) (Some lhs)
                  (evaluate (_context s') expr) expr = Some m ->
  visitUiScriptBinding (Some q) (Some (ExpressionStatement expr)) s =
  Ok true (if QString.isEmpty (message m) then s' else addMessages s' [m]).
Proof.
  intros Hres Hm.
  destruct (resolved_has_name q s s' lhs Hres) as (n & Hn & Hid).
  unfold visitUiScriptBinding. rewrite Hn, Hid.
  unfold checkBinding, bind at 1. rewrite Hres.
  unfold bind, scopeChain. fold (statementLocation expr). rewrite Hm.
  destruct (QString.isEmpty (message m)); reflexivity.
Qed.

Lemma checked_binding_reported (q : UiQualifiedId) (expr : Node)
  (s s' : CheckState) (lhs : Value) (complains : bool) (text : string) :
  checkScopeObjectMember (Some q) s = Ok (Some lhs) s' ->
  QString.isEmpty text = false ->
  AssignmentCheck (statementLocation expr) (Some lhs)
                  (evaluate (_context s') expr) expr
  = Some (if complains
          then mkMessage Error (statementLocation expr) text
          else mkMessage Error (statementLocation expr) EmptyString) ->
  visitUiScriptBinding (Some q) (Some (ExpressionStatement expr)) s =
  Ok true (reported s' complains (statementLocation expr) text).
Proof.
  intros Hres Ht Hm. rewrite (checked_binding q expr s s' lhs _ Hres Hm).
  unfold reported. destruct complains; cbn; [now rewrite Ht | reflexivity].
Qed.

End Rules.

(** X5: whatever the declared and the evaluated value, the message of the
    compatibility check carries the location it was given, and it is an
    error unless it is the warning "value might be 'undefined'". *)
Theorem AssignmentCheck_message {E : Externals}
  (l : AST.SourceLocation) (lhs rhs : option Value) (ast : Node)
  (m : DiagnosticMessage) :
  AssignmentCheck l lhs rhs ast = Some m ->
  loc m = l /\
  (kind m = Error \/
   kind m = Warning /\ message m = "value might be 'undefined'").
Proof.
  unfold AssignmentCheck.
  destruct lhs as [lhs|]; [| intros H; inversion H; auto].
  destruct lhs; simpl;
    unfold visitNumberValue, visitBooleanValue, visitColorValue,
      visitStringValue, visitAnchorLineValue;
    repeat match goal with
      | |- context [match castStringLiteral ?a with _ => _ end] =>
          destruct (castStringLiteral a)
      | |- context [match rhs with _ => _ end] => destruct rhs
      | |- context [if ?b then _ else _] => destruct b
      end;
    intros H; inversion H; cbn; auto.
Qed.

Lemma AssignmentCheck_message_witness :
  loc (mkMessage Warning Sample.noLoc "value might be 'undefined'")
  = Sample.noLoc /\
  (kind (mkMessage Warning Sample.noLoc "value might be 'undefined'") = Error \/
   kind (mkMessage Warning Sample.noLoc "value might be 'undefined'") = Warning /\
   message (mkMessage Warning Sample.noLoc "value might be 'undefined'")
   = "value might be 'undefined'").
Proof.
  apply (@AssignmentCheck_message sample Sample.noLoc
           (Some (QmlEnumValue ["AlignLeft"])) (Some UndefinedValue)
           (IdentifierExpression (Some "x"))).
  reflexivity.
Defined.

(** X6: a binding of a property declared as a plain number reports
    "numerical value expected" exactly for the literals [true] and [false];
    one declared as a boolean reports "boolean value expected" exactly for
    a string literal, a numeric literal and a negated numeric literal; one
    declared as a string reports "string value expected" exactly for a
    numeric literal, a negated numeric literal, [true] and [false]. *)
Theorem literal_mismatch {E : Externals}
  (q : UiQualifiedId) (expr : Node) (s s' : CheckState) :
  (checkScopeObjectMember (Some q) s = Ok (Some NumberValue) s' ->
   visitUiScriptBinding (Some q) (Some (ExpressionStatement expr)) s =
   Ok true (reported s' (isTrueOrFalseLiteral expr)
                     (statementLocation expr) "numerical value expected")) /\
  (checkScopeObjectMember (Some q) s = Ok (Some BooleanValue) s' ->
   visitUiScriptBinding (Some q) (Some (ExpressionStatement expr)) s =
   Ok true (reported s' (negb (isNull (castStringLiteral expr))
                         || isNumericLiteral expr
                         || isNegatedNumericLiteral expr)
                     (statementLocation expr) "boolean value expected")) /\
  (checkScopeObjectMember (Some q) s = Ok (Some StringValue) s' ->
   visitUiScriptBinding (Some q) (Some (ExpressionStatement expr)) s =
   Ok true (reported s' (isNumericLiteral expr
                         || isNegatedNumericLiteral expr
                         || isTrueOrFalseLiteral expr)
                     (statementLocation expr) "string value expected")).
Proof.
  repeat split; intros Hres;
    (apply (checked_binding_reported q expr s s' _ _ _ Hres);
     [reflexivity |]);
    unfold AssignmentCheck; cbn;
    unfold visitNumberValue, visitBooleanValue, visitStringValue.
  - now destruct (isTrueOrFalseLiteral expr).
  - destruct (castStringLiteral expr); [reflexivity |]. cbn.
    now destruct (isNumericLiteral expr || isNegatedNumericLiteral expr).
  - now destruct (isNumericLiteral expr || isNegatedNumericLiteral expr
                  || isTrueOrFalseLiteral expr).
Qed.

Lemma literal_mismatch_witness :
  @visitUiScriptBinding sample (Some (segment "width" None))
     (Some (ExpressionStatement FalseLiteral)) inItem
  = Ok true (addMessages inItem [mkMessage Error (AST.mkLoc 4 3 1 5)
                                           "numerical value expected"]) /\
  @visitUiScriptBinding sample (Some (segment "visible" None))
     (Some (ExpressionStatement (UnaryMinusExpression NumericLiteral))) inItem
  = Ok true (addMessages inItem [mkMessage Error (AST.mkLoc 4 3 1 5)
                                           "boolean value expected"]) /\
  @visitUiScriptBinding sample (Some (segment "state" None))
     (Some (ExpressionStatement (StringLiteral "on"))) inItem
  = Ok true inItem.
Proof.
  split; [| split].
  - apply (proj1 (@literal_mismatch sample (segment "width" None)
                    FalseLiteral inItem inItem)).
    reflexivity.
  - apply (proj1 (proj2 (@literal_mismatch sample (segment "visible" None)
                    (UnaryMinusExpression NumericLiteral) inItem inItem))).
    reflexivity.
  - apply (proj2 (proj2 (@literal_mismatch sample (segment "state" None)
                    (StringLiteral "on") inItem inItem))).
    reflexivity.
Defined.

(** X7: a string literal bound to a property declared as a colour is
    reported as "not a valid color" exactly when [toQColor] gives it no
    valid colour; any other expression bound to it is checked as for a
    property declared as a string. *)
Theorem colour_binding {E : Externals}
  (q : UiQualifiedId) (s s' : CheckState) :
  checkScopeObjectMember (Some q) s = Ok (Some ColorValue) s' ->
  (forall text,
      visitUiScriptBinding (Some q)
        (Some (ExpressionStatement (StringLiteral text))) s =
      Ok true (reported s' (negb (isValid (toQColor text)))
                        (statementLocation (StringLiteral text))
                        "not a valid color")) /\
  (forall expr,
      castStringLiteral expr = None ->
      visitUiScriptBinding (Some q) (Some (ExpressionStatement expr)) s =
      Ok true (reported s' (isNumericLiteral expr
                            || isNegatedNumericLiteral expr
                            || isTrueOrFalseLiteral expr)
                        (statementLocation expr) "string value expected")).
Proof.
  intros Hres. split.
  - intros text.
    apply (checked_binding_reported q _ s s' _ _ _ Hres); [reflexivity |].
    unfold AssignmentCheck. cbn. unfold visitColorValue. cbn.
    now destruct (isValid (toQColor text)).
  - intros expr Hlit.
    apply (checked_binding_reported q _ s s' _ _ _ Hres); [reflexivity |].
    unfold AssignmentCheck. cbn. unfold visitColorValue, visitStringValue.
    rewrite Hlit.
    now destruct (isNumericLiteral expr || isNegatedNumericLiteral expr
                  || isTrueOrFalseLiteral expr).
Qed.

Lemma colour_binding_witness :
  @visitUiScriptBinding sample (Some (segment "color" None))
     (Some (ExpressionStatement (StringLiteral "#80FF0000"))) inItem
  = Ok true inItem /\
  @visitUiScriptBinding sample (Some (segment "color" None))
     (Some (ExpressionStatement (StringLiteral "#ZZFF0000"))) inItem
  = Ok true (addMessages inItem [mkMessage Error (AST.mkLoc 4 3 1 5)
                                           "not a valid color"]) /\
  @visitUiScriptBinding sample (Some (segment "color" None))
     (Some (ExpressionStatement NumericLiteral)) inItem
  = Ok true (addMessages inItem [mkMessage Error (AST.mkLoc 4 3 1 5)
                                           "string value expected"]).
Proof.
  destruct (@colour_binding sample (segment "color" None) inItem inItem
              eq_refl) as (Hlit & Hother).
  split; [exact (Hlit "#80FF0000") |].
  split; [exact (Hlit "#ZZFF0000") |].
  exact (Hother NumericLiteral eq_refl).
Defined.

(** X8: a string literal bound to a property declared as a url is reported
    as "not a valid url" when the url is not valid and not empty; else,
    when the url has a local file, as "file or directory does not exist"
    when the file, taken from the directory of the document if the url is
    relative, does not exist; else it is not reported. *)
Theorem url_binding {E : Externals}
  (q : UiQualifiedId) (text : string) (s s' : CheckState) :
  checkScopeObjectMember (Some q) s = Ok (Some UrlValue) s' ->
  visitUiScriptBinding (Some q)
    (Some (ExpressionStatement (StringLiteral text))) s =
  Ok true
     (if negb (urlIsValid text) && negb (urlIsEmpty text)
      then addMessages s' [mkMessage Error
                             (statementLocation (StringLiteral text))
                             "not a valid url"]
      else reported s' (negb (QString.isEmpty (urlToLocalFile text))
                        && negb (fileExists (urlTarget text)))
                    (statementLocation (StringLiteral text))
                    "file or directory does not exist").
Proof.
  intros Hres.
  destruct (negb (urlIsValid text) && negb (urlIsEmpty text)) eqn:Hv.
  - rewrite (checked_binding q _ s s' _
               (mkMessage Error (statementLocation (StringLiteral text))
                          "not a valid url") Hres); [reflexivity |].
    unfold AssignmentCheck. cbn. unfold visitStringValue. cbn.
    now rewrite Hv.
  - apply (checked_binding_reported q _ s s' _ _ _ Hres); [reflexivity |].
    unfold AssignmentCheck. cbn. unfold visitStringValue. cbn.
    rewrite Hv. fold (urlTarget text).
    destruct (QString.isEmpty (urlToLocalFile text)); cbn; [reflexivity |].
    now destruct (fileExists (urlTarget text)).
Qed.

Lemma url_binding_witness :
  @visitUiScriptBinding sample (Some (segment "source" None))
     (Some (ExpressionStatement (StringLiteral "logo.png"))) inItem
  = Ok true (addMessages inItem [mkMessage Error (AST.mkLoc 4 3 1 5)
                                   "file or directory does not exist"]) /\
  @urlTarget sample "logo.png" = "/project/logo.png".
Proof.
  split; [| reflexivity].
  apply (@url_binding sample (segment "source" None) "logo.png" inItem inItem).
  reflexivity.
Defined.

(** X9: for a property declared as an enum, a string literal is reported
    as "unknown value for enum" exactly when it is not one of the keys,
    whatever the evaluation gives; any other expression gets the warning
    "value might be 'undefined'" when it evaluates to undefined, is
    accepted when it evaluates to a string or a number, and is reported as
    "enum value is not a string or number" otherwise.  For a property
    declared as an anchor line, an expression is reported as "expected
    anchor line" unless it evaluates to an anchor line or to undefined. *)
Theorem evaluated_value_rules {E : Externals}
  (q : UiQualifiedId) (s s' : CheckState) :
  (forall keys text,
      checkScopeObjectMember (Some q) s = Ok (Some (QmlEnumValue keys)) s' ->
      visitUiScriptBinding (Some q)
        (Some (ExpressionStatement (StringLiteral text))) s =
      Ok true (reported s' (negb (QString.contains keys text))
                        (statementLocation (StringLiteral text))
                        "unknown value for enum")) /\
  (forall keys expr rhs,
      checkScopeObjectMember (Some q) s = Ok (Some (QmlEnumValue keys)) s' ->
      castStringLiteral expr = None ->
      evaluate (_context s') expr = Some rhs ->
      visitUiScriptBinding (Some q) (Some (ExpressionStatement expr)) s =
      Ok true
         (if asUndefinedValue rhs
          then addMessages s' [mkMessage Warning (statementLocation expr)
                                         "value might be 'undefined'"]
          else reported s' (negb (asStringValue rhs) && negb (asNumberValue rhs))
                        (statementLocation expr)
                        "enum value is not a string or number")) /\
  (forall expr rhs,
      checkScopeObjectMember (Some q) s = Ok (Some AnchorLineValue) s' ->
      evaluate (_context s') expr = Some rhs ->
      visitUiScriptBinding (Some q) (Some (ExpressionStatement expr)) s =
      Ok true (reported s' (negb (asAnchorLineValue rhs || asUndefinedValue rhs))
                        (statementLocation expr) "expected anchor line")).
Proof.
  repeat split.
  - intros keys text Hres.
    apply (checked_binding_reported q _ s s' _ _ _ Hres); [reflexivity |].
    unfold AssignmentCheck. cbn. unfold visitNumberValue. cbn.
    now destruct (QString.contains keys text).
  - intros keys expr rhs Hres Hlit Hrhs.
    destruct (asUndefinedValue rhs) eqn:Hu.
    + rewrite (checked_binding q _ s s' _
                 (mkMessage Warning (statementLocation expr)
                            "value might be 'undefined'") Hres);
        [reflexivity |].
      unfold AssignmentCheck. cbn. unfold visitNumberValue.
      now rewrite Hlit, Hrhs, Hu.
    + apply (checked_binding_reported q _ s s' _ _ _ Hres); [reflexivity |].
      unfold AssignmentCheck. cbn. unfold visitNumberValue.
      rewrite Hlit, Hrhs, Hu.
      now destruct (negb (asStringValue rhs) && negb (asNumberValue rhs)).
  - intros expr rhs Hres Hrhs.
    apply (checked_binding_reported q _ s s' _ _ _ Hres); [reflexivity |].
    unfold AssignmentCheck. cbn. unfold visitAnchorLineValue.
    rewrite Hrhs.
    now destruct (asAnchorLineValue rhs || asUndefinedValue rhs).
Qed.

Lemma evaluated_value_rules_witness :
  @visitUiScriptBinding sample (Some (segment "horizontalAlignment" None))
     (Some (ExpressionStatement (StringLiteral "AlignCenter"))) inItem
  = Ok true (addMessages inItem [mkMessage Error (AST.mkLoc 4 3 1 5)
                                           "unknown value for enum"]) /\
  @visitUiScriptBinding sample (Some (segment "horizontalAlignment" None))
     (Some (ExpressionStatement TrueLiteral)) inItem
  = Ok true (addMessages inItem
               [mkMessage Error (AST.mkLoc 4 3 1 5)
                          "enum value is not a string or number"]) /\
  @visitUiScriptBinding sample
     (Some (segment "anchors" (Some (segment "left" None))))
     (Some (ExpressionStatement NumericLiteral)) inItem
  = Ok true (addMessages inItem [mkMessage Error (AST.mkLoc 4 3 1 5)
                                           "expected anchor line"]).
Proof.
  destruct (@evaluated_value_rules sample
              (segment "horizontalAlignment" None) inItem inItem)
    as (Hlit & Hother & _).
  destruct (@evaluated_value_rules sample
              (segment "anchors" (Some (segment "left" None))) inItem inItem)
    as (_ & _ & Hanchor).
  split; [exact (Hlit _ "AlignCenter" eq_refl) |].
  split; [exact (Hother _ TrueLiteral BooleanValue eq_refl eq_refl eq_refl) |].
  exact (Hanchor NumericLiteral NumberValue eq_refl eq_refl).
Defined.

(** ** The resolver, further *)

Lemma addMessages_nil (s : CheckState) : addMessages s [] = s.
Proof. destruct s. unfold addMessages. cbn. now rewrite app_nil_r. Qed.

Lemma addMessages_app (s : CheckState) (a b : list DiagnosticMessage) :
  addMessages (addMessages s a) b = addMessages s (a ++ b).
Proof. unfold addMessages. cbn. now rewrite app_assoc. Qed.

(** The member loop returns a value exactly when the chain can be
    followed, and then it reports nothing. *)
Lemma memberLookup_follow (idPart : UiQualifiedId) :
  forall propertyName value s v s',
    memberLookup idPart propertyName value s = Ok (Some v) s' <->
    s' = s /\ exists v0, value = Some v0 /\ follow idPart v0 = Some v.
Proof.
  induction idPart as [n tok nxt IH]. intros propertyName value s v s'.
  destruct nxt as [nxt|].
  - inversion IH as [a IHnxt|]; subst.
    destruct value as [v0|];
      [| cbn; split; [discriminate | intros (_ & v2 & Hv2 & _); discriminate]].
    assert (Hstep :
              (s' = s /\ exists v1, Some v0 = Some v1 /\
                 follow (QualifiedId n tok (Some nxt)) v1 = Some v) <->
              (s' = s /\
                 follow (QualifiedId n tok (Some nxt)) v0 = Some v)).
    { split.
      - intros (-> & v1 & Hv1 & Hf). inversion Hv1; subst. now split.
      - intros (-> & Hf). split; [reflexivity |]. now exists v0. }
    rewrite Hstep. cbn.
    destruct (asObjectValue v0) as [o|]; cbn;
      [| split; [discriminate | intros (_ & Hf); discriminate]].
    destruct (qname nxt) as [n'|]; cbn;
      [| split; [discriminate | intros (_ & Hf); discriminate]].
    destruct (lookupMember o n') as [v1|]; cbn;
      [| split; [discriminate | intros (_ & Hf); discriminate]].
    rewrite IHnxt. split.
    + intros (-> & v2 & Hv2 & Hf). inversion Hv2; subst. now split.
    + intros (-> & Hf). split; [reflexivity |]. now exists v1.
  - cbn. unfold ret. split.
    + intros H. inversion H; subst. split; [reflexivity |]. now exists v.
    + intros (-> & v0 & -> & Hf). now inversion Hf.
Qed.

(** X10: the resolver returns a value exactly when the context has a scope
    object, the first segment has a name, the id is not the single
    segment [id], the first segment does not name an attached property, a
    scope object has it, and each further segment is a named member of the
    object before it; it then returns the value at the end of the chain
    and reports nothing. *)
Theorem resolves_exactly_when {E : Externals}
  (id : option UiQualifiedId) (s s' : CheckState) (v : Value) :
  checkScopeObjectMember id s = Ok (Some v) s' <->
  s' = s /\
  exists q a v0,
    id = Some q /\ qname q = Some a /\
    String.eqb a "id" && isNull (qnext q) = false /\
    isAttachedName a = false /\
    globalLookup (qmlScopeObjects (_context s)) a = Some v0 /\
    follow q v0 = Some v.
Proof.
  split.
  - intros H.
    destruct id as [q|];
      [| unfold checkScopeObjectMember, bind, scopeChain in H;
         destruct (isEmptyList _); discriminate].
    destruct (resolved_has_name q s s' v H) as (a & Ha & Hid).
    destruct (isEmptyList (qmlScopeObjects (_context s))) eqn:Hne;
      [unfold checkScopeObjectMember, bind, scopeChain in H;
       rewrite Hne in H; discriminate |].
    destruct q as [n tok nxt]. cbn in Ha, Hid. subst n.
    rewrite (resolver_first_segment a tok nxt s Hne Hid) in H.
    unfold bind in H.
    destruct (isAttachedName a) eqn:Hatt.
    { destruct (isNull _); cbn in H; discriminate. }
    unfold searchList in H. rewrite Hatt in H.
    destruct (globalLookup (qmlScopeObjects (_context s)) a) as [v0|] eqn:Hv0;
      unfold isNull, ret, error, append in H.
    + apply memberLookup_follow in H as (-> & v1 & Hv1 & Hf).
      inversion Hv1; subst.
      split; [reflexivity |]. now exists (QualifiedId (Some a) tok nxt), a, v1.
    + apply memberLookup_follow in H as (_ & v1 & Hv1 & _). discriminate.
  - intros (-> & q & a & v0 & -> & Ha & Hid & Hatt & Hv0 & Hf).
    destruct q as [n tok nxt]. cbn in Ha, Hid. subst n.
    rewrite (resolver_first_segment a tok nxt s
               (lookup_needs_objects _ _ _ Hv0) Hid).
    unfold searchList. rewrite Hatt, Hv0. unfold bind, isNull, ret.
    apply memberLookup_follow. split; [reflexivity |]. now exists v0.
Qed.

Lemma resolves_exactly_when_witness :
  @checkScopeObjectMember sample
     (Some (segment "anchors" (Some (segment "left" None)))) inItem
  = Ok (Some AnchorLineValue) inItem.
Proof.
  apply (@resolves_exactly_when sample). split; [reflexivity |].
  exists (segment "anchors" (Some (segment "left" None))), "anchors",
         (ObjectV Sample.anchors).
  repeat split.
Defined.

(** The member loop reports at most one diagnostic. *)
Lemma memberLookup_at_most_one (idPart : UiQualifiedId) :
  forall propertyName value s,
  exists v ms,
    memberLookup idPart propertyName value s = Ok v (addMessages s ms) /\
    (List.length ms <= 1)%nat /\
    (Forall (fun d => kind d = Error) ms).
Proof.
  induction idPart as [n tok nxt IH]. intros propertyName value s.
  destruct nxt as [nxt|]; cbn.
  - inversion IH as [a IHnxt|]; subst.
    destruct (value_cast_ObjectValue value) as [o|].
    + destruct (qname nxt) as [n'|].
      * destruct (lookupMember o n') as [v1|]; [apply IHnxt |].
        eexists None, [_].
        split; [reflexivity | split; [cbn; lia | now repeat constructor]].
      * exists None, []. rewrite addMessages_nil.
        split; [reflexivity | split; [cbn; lia | constructor]].
    + eexists None, [_].
        split; [reflexivity | split; [cbn; lia | now repeat constructor]].
  - exists value, []. rewrite addMessages_nil.
    split; [reflexivity | split; [cbn; lia | constructor]].
Qed.

(** X11: on every qualified id, missing or with missing names, the
    resolver returns: it leaves the scope chain as it is and appends at
    most two diagnostics, all errors. *)
Theorem resolver_returns {E : Externals}
  (id : option UiQualifiedId) (s : CheckState) :
  exists v ms,
    checkScopeObjectMember id s = Ok v (addMessages s ms) /\
    (List.length ms <= 2)%nat /\
    Forall (fun d => kind d = Error) ms.
Proof.
  assert (Hnone : exists v ms,
             Ok (@None Value) s = Ok v (addMessages s ms) /\
             (List.length ms <= 2)%nat /\
             Forall (fun d => kind d = Error) ms).
  { exists None, []. rewrite addMessages_nil.
    split; [reflexivity | split; [cbn; lia | constructor]]. }
  unfold checkScopeObjectMember, bind at 1, scopeChain.
  destruct (isEmptyList (qmlScopeObjects (_context s))); [exact Hnone |].
  destruct id as [q|]; [| exact Hnone].
  destruct (qname q) as [a|]; [| exact Hnone].
  destruct (_ && isNull (qnext q)); [exact Hnone |].
  fold (isAttachedName a). fold (searchList (_context s) a).
  destruct (isEmptyList (searchList (_context s) a)); [exact Hnone |].
  unfold bind.
  destruct (isNull (globalLookup (searchList (_context s) a) a)); cbn.
  - destruct (isAttachedName a); cbn.
    + eexists None, [_].
        split; [reflexivity | split; [cbn; lia | now repeat constructor]].
    + destruct (memberLookup_at_most_one q a
                  (globalLookup (searchList (_context s) a) a)
                  (addMessages s [mkMessage Error (qtoken q)
                                            (notValidPropertyName a)]))
        as (v & ms & Hm & Hl & Hk).
      exists v, (mkMessage Error (qtoken q) (notValidPropertyName a) :: ms).
      split; [| split; [cbn; lia | now constructor]].
      etransitivity; [exact Hm |]. f_equal. apply addMessages_app.
  - destruct (isAttachedName a); cbn; [exact Hnone |].
    destruct (memberLookup_at_most_one q a
                (globalLookup (searchList (_context s) a) a) s)
      as (v & ms & Hm & Hl & Hk).
    exists v, ms. split; [exact Hm | split; [lia | exact Hk]].
Qed.

Lemma last_cons {A} (r : list A) : forall x d, last (x :: r) d = last r x.
Proof.
  induction r as [| y r IH]; intros x d; [reflexivity |].
  change (last (x :: y :: r) d) with (last (y :: r) d).
  now rewrite (IH y d), (IH y x).
Qed.

(** One turn of the member loop on an object that has the next member. *)
Lemma memberLookup_member (n n' : option string) (tok tok' : AST.SourceLocation)
  (rest : option UiQualifiedId) (propertyName b : string)
  (value v : Value) (o : ObjectValue) (s : CheckState) :
  asObjectValue value = Some o -> n' = Some b -> lookupMember o b = Some v ->
  memberLookup (QualifiedId n tok (Some (QualifiedId n' tok' rest)))
               propertyName (Some value) s
  = memberLookup (QualifiedId n' tok' rest) b (Some v) s.
Proof.
  intros Ho -> Hm. cbn [memberLookup value_cast_ObjectValue qname].
  now rewrite Ho, Hm.
Qed.

(** The member loop, after the segments it can walk through, is at the
    last of them. *)
Lemma memberLookup_walk (segments : list (string * AST.SourceLocation)) :
  forall n tok propertyName value value' tail s,
    walk value segments = Some value' ->
    memberLookup (QualifiedId n tok (chainOf segments tail)) propertyName
                 (Some value) s
    = memberLookup
        (QualifiedId None (snd (last segments (propertyName, tok))) tail)
        (fst (last segments (propertyName, tok))) (Some value') s.
Proof.
  induction segments as [| [n1 t1] r IH];
    intros n tok propertyName value value' tail s Hw.
  - cbn in Hw. inversion Hw; subst. cbn [chainOf last fst snd].
    now destruct tail.
  - cbn in Hw.
    destruct (asObjectValue value) as [o|] eqn:Ho; [| discriminate].
    destruct (lookupMember o n1) as [v1|] eqn:Hm; [| discriminate].
    cbn [chainOf].
    rewrite (memberLookup_member n (Some n1) tok t1 (chainOf r tail)
               propertyName n1 value v1 o s Ho eq_refl Hm).
    rewrite (IH (Some n1) t1 n1 v1 value' tail s Hw).
    now rewrite last_cons.
Qed.

(** X12: in a chain whose first segment is not an attached property and
    resolves, and whose next segments are members down to some value: if
    that value is an object and the segment after it has no name, the
    resolver returns none and reports nothing; if the segment names
    something the object has not, it reports only "'name' is not a member
    of 'class'" at that segment; if the value is not an object, it reports
    only that the segment before "does not have members", at that
    segment. *)
Theorem member_errors {E : Externals}
  (a : string) (tok : AST.SourceLocation)
  (segments : list (string * AST.SourceLocation)) (nxt : UiQualifiedId)
  (s : CheckState) (v v' : Value) :
  isAttachedName a = false ->
  globalLookup (qmlScopeObjects (_context s)) a = Some v ->
  walk v segments = Some v' ->
  let id := Some (QualifiedId (Some a) tok (chainOf segments (Some nxt))) in
  (forall o, asObjectValue v' = Some o -> qname nxt = None ->
             checkScopeObjectMember id s = Ok None s) /\
  (forall o b, asObjectValue v' = Some o -> qname nxt = Some b ->
               lookupMember o b = None ->
               checkScopeObjectMember id s
               = Ok None (addMessages s
                            [mkMessage Error (qtoken nxt)
                                       (isNotAMemberOf b (className o))])) /\
  (asObjectValue v' = None ->
   checkScopeObjectMember id s
   = Ok None (addMessages s
                [mkMessage Error (snd (last segments (a, tok)))
                           (doesNotHaveMembers
                              (fst (last segments (a, tok))))])).
Proof.
  intros Hatt Hv Hw id.
  assert (Hres : checkScopeObjectMember id s
                 = memberLookup
                     (QualifiedId None (snd (last segments (a, tok)))
                                  (Some nxt))
                     (fst (last segments (a, tok))) (Some v') s).
  { unfold id. rewrite resolver_first_segment;
      [| exact (lookup_needs_objects _ _ _ Hv)
       | destruct segments as [| [] ?]; cbn; now rewrite andb_false_r].
    unfold searchList. rewrite Hatt, Hv. unfold bind, isNull, ret.
    now apply memberLookup_walk. }
  rewrite Hres. cbn [memberLookup value_cast_ObjectValue].
  repeat split.
  - intros o -> ->. reflexivity.
  - intros o b -> -> ->. reflexivity.
  - intros ->. reflexivity.
Qed.

Lemma member_errors_witness :
  @checkScopeObjectMember sample
     (Some (segment "anchors" (Some (QualifiedId None Sample.noLoc None))))
     inItem
  = Ok None inItem /\
  @checkScopeObjectMember sample
     (Some (segment "anchors" (Some (segment "lft" None)))) inItem
  = Ok None (addMessages inItem
               [mkMessage Error Sample.noLoc
                          "'lft' is not a member of 'Anchors'"]) /\
  @checkScopeObjectMember sample
     (Some (segment "anchors"
              (Some (segment "left" (Some (segment "x" None)))))) inItem
  = Ok None (addMessages inItem
               [mkMessage Error Sample.noLoc "'left' does not have members"]).
Proof.
  destruct (@member_errors sample "anchors" Sample.noLoc []
              (QualifiedId None Sample.noLoc None) inItem
              (ObjectV Sample.anchors) (ObjectV Sample.anchors)
              eq_refl eq_refl eq_refl) as (Hdot & _ & _).
  destruct (@member_errors sample "anchors" Sample.noLoc []
              (segment "lft" None) inItem
              (ObjectV Sample.anchors) (ObjectV Sample.anchors)
              eq_refl eq_refl eq_refl) as (_ & Hmember & _).
  destruct (@member_errors sample "anchors" Sample.noLoc
              [("left", Sample.noLoc)] (segment "x" None) inItem
              (ObjectV Sample.anchors) AnchorLineValue
              eq_refl eq_refl eq_refl) as (_ & _ & Hvalue).
  split; [exact (Hdot Sample.anchors eq_refl eq_refl) |].
  split; [exact (Hmember Sample.anchors "lft" eq_refl eq_refl eq_refl) |].
  exact (Hvalue eq_refl).
Defined.

(** The search goes from the last scope object to the first. *)
Lemma globalLookup_last (objects : list ObjectValue) (o : ObjectValue)
  (n : string) :
  globalLookup (objects ++ [o]) n =
  match lookupMember o n with
  | Some v => Some v
  | None => globalLookup objects n
  end.
Proof. unfold globalLookup. now rewrite rev_app_distr. Qed.

(** X13: the scope object pushed last shadows the ones before it: a single
    segment that it has resolves to its member, whatever the earlier scope
    objects have under that name; a name it has not is looked up in the
    earlier ones. *)
Theorem last_scope_object_shadows {E : Externals}
  (a : string) (tok : AST.SourceLocation) (s : CheckState)
  (objects : list ObjectValue) (o : ObjectValue) :
  qmlScopeObjects (_context s) = (objects ++ [o])%list ->
  isAttachedName a = false ->
  String.eqb a "id" = false ->
  (forall v, lookupMember o a = Some v ->
             checkScopeObjectMember (Some (QualifiedId (Some a) tok None)) s
             = Ok (Some v) s) /\
  (lookupMember o a = None ->
   globalLookup (qmlScopeObjects (_context s)) a = globalLookup objects a).
Proof.
  intros Hs Hatt Hid. split.
  - intros v Hv.
    rewrite resolver_first_segment;
      [| rewrite Hs; now destruct objects | now rewrite Hid].
    unfold searchList. rewrite Hatt, Hs, globalLookup_last, Hv.
    reflexivity.
  - intros Hv. now rewrite Hs, globalLookup_last, Hv.
Qed.

Lemma last_scope_object_shadows_witness :
  @checkScopeObjectMember sample (Some (segment "width" None))
     (mkState []
        (mkScopeChain [Sample.item; mkObject "Text" [("width", StringValue)]]
                      None [])
        [] false)
  = Ok (Some StringValue)
       (mkState []
          (mkScopeChain [Sample.item; mkObject "Text" [("width", StringValue)]]
                        None [])
          [] false).
Proof.
  apply (proj1 (@last_scope_object_shadows sample "width" Sample.noLoc
                  (mkState []
                     (mkScopeChain
                        [Sample.item; mkObject "Text" [("width", StringValue)]]
                        None [])
                     [] false)
                  [Sample.item] (mkObject "Text" [("width", StringValue)])
                  eq_refl eq_refl eq_refl));
    reflexivity.
Defined.

(** ** The traversal, further *)

Section Traversal.
Context {E : Externals}.

Lemma silent_Node_accept (o : option Node) :
  option_all Node
    (fun n => scriptOnly n = true -> forall s, accept n s = Ok tt s) o ->
  whenPresent scriptOnly o = true ->
  forall s, Node_accept accept o s = Ok tt s.
Proof. intros H Hs. destruct H; cbn; auto. Qed.

Lemma silent_acceptEach (l : list Node) :
  list_all Node
    (fun n => scriptOnly n = true -> forall s, accept n s = Ok tt s) l ->
  forallb scriptOnly l = true ->
  forall s, acceptEach accept l s = Ok tt s.
Proof.
  intros H. induction H as [| n Hn l Hl IH]; cbn; intros Hs s;
    [reflexivity |].
  apply andb_true_iff in Hs as [Ha Hr].
  unfold bind. rewrite (Hn Ha). now apply IH.
Qed.

Lemma silent_function (ast : Node) (formals body : M unit) (s : CheckState) :
  (forall s, formals s = Ok tt s) -> (forall s, body s = Ok tt s) ->
  (formals ;;; push ast ;;; body ;;; pop) s = Ok tt s.
Proof.
  intros Hf Hb. unfold bind. rewrite Hf. unfold push. rewrite Hb.
  now destruct s.
Qed.

(** All of a tree of script nodes is visited without a diagnostic. *)
Lemma scriptOnly_accept (n : Node) :
  scriptOnly n = true -> forall s, accept n s = Ok tt s.
Proof.
  induction n; cbn; try discriminate; auto; intros Hs s.
  - apply andb_true_iff in Hs as [Hf Hb].
    apply silent_function; now apply silent_Node_accept.
  - apply andb_true_iff in Hs as [Hf Hb].
    apply silent_function; now apply silent_Node_accept.
  - now apply silent_acceptEach.
Qed.

End Traversal.

(** X14: script code is visited without a diagnostic, whatever its
    identifiers and member expressions name: the traversal of a tree
    without elements and bindings, functions included, reports nothing
    and leaves the state of the checker as it was. *)
Theorem script_is_not_checked {E : Externals} (n : Node) (s : CheckState) :
  scriptOnly n = true -> accept n s = Ok tt s.
Proof. intros H. now apply scriptOnly_accept. Qed.

Lemma script_is_not_checked_witness :
  @accept sample
     (FunctionExpression
        (Some (OtherNode [IdentifierExpression (Some "a")]))
        (Some (OtherNode
                 [ExpressionStatement
                    (FieldMemberExpression
                       (IdentifierExpression (Some "nowhere"))
                       (Some "member"))])))
     inItem
  = Ok tt inItem.
Proof.
  apply (@script_is_not_checked sample). reflexivity.
Defined.

(** X15: an element whose type name is a single segment that starts with
    a lower-case letter is a grouped property: its name goes to the
    resolver, no scope is pushed and its initializer is not visited, so
    that nothing in it is checked. *)
Theorem grouped_property_not_visited {E : Externals}
  (n : string) (c : ascii) (tok : AST.SourceLocation)
  (initializer : option Node) (s : CheckState) :
  QString.at_ n 0 = Some c -> isLower c = true ->
  accept (UiObjectDefinition (Some (QualifiedId (Some n) tok None)) initializer) s
  = (checkScopeObjectMember (Some (QualifiedId (Some n) tok None)) ;;; ret tt) s.
Proof.
  intros Hc Hl. cbn. now rewrite Hc, Hl.
Qed.

Lemma grouped_property_not_visited_witness :
  @accept sample
     (UiObjectDefinition (Some (segment "anchors" None))
        (Some (OtherNode [binding "nowhere" TrueLiteral;
                          binding "id" (StringLiteral "Foo")])))
     inItem
  = Ok tt inItem.
Proof.
  refine (eq_trans
            (@grouped_property_not_visited sample "anchors" "a" Sample.noLoc
               _ inItem eq_refl eq_refl) _).
  reflexivity.
Defined.

Section NoScopeObject.
Context {E : Externals}.





End NoScopeObject.



(** X17: an [id] binding without a statement reports nothing and is not
    looked up; one whose statement is not an expression statement reports
    the one error "expected id" over the statement. *)
Theorem id_statement_edges {E : Externals}
  (tok : AST.SourceLocation) (s : CheckState) :
  accept (UiScriptBinding (Some (idProperty tok)) None) s = Ok tt s /\
  (forall stmt,
      isExpressionStatement stmt = false ->
      accept (UiScriptBinding (Some (idProperty tok)) (Some stmt)) s
      = Ok tt (addMessages s
                 [mkMessage Error
                    (locationFromRange (firstSourceLocation stmt)
                                       (lastSourceLocation stmt))
                    "expected id"])).
Proof.
  split; [reflexivity |].
  intros stmt H. destruct stmt; try discriminate; reflexivity.
Qed.

Lemma id_statement_edges_witness :
  @accept sample
     (UiScriptBinding (Some (idProperty Sample.noLoc))
                      (Some (OtherNode [ExpressionStatement NumericLiteral])))
     inItem
  = Ok tt (addMessages inItem [mkMessage Error Sample.noLoc "expected id"]).
Proof.
  apply (proj2 (@id_statement_edges sample Sample.noLoc inItem)).
  reflexivity.
Defined.

(** X18: the traversal of a node only appends: the diagnostics that were
    there stay, in their order, before the new ones, and the option to
    ignore type errors is what it was. *)
Theorem traversal_appends {E : Externals} (n : Node) (s s' : CheckState) :
  accept n s = Ok tt s' ->
  exists ms,
    _messages s' = (_messages s ++ ms)%list /\
    _ignoreTypeErrors s' = _ignoreTypeErrors s.
Proof.
  intros H.
  destruct (scoped_result _ _ _ _ (scoped_accept n) H) as (ms & ->).
  now exists ms.
Qed.

Lemma traversal_appends_witness :
  exists ms,
    _messages (mkState (sampleDiagnostics ++ sampleDiagnostics)
                       (_context noScope) [] false)
    = (sampleDiagnostics ++ ms)%list /\
    _ignoreTypeErrors (mkState (sampleDiagnostics ++ sampleDiagnostics)
                               (_context noScope) [] false) = false.
Proof.
  apply (@traversal_appends sample sampleDocument
           (mkState sampleDiagnostics (_context noScope) [] false)).
  vm_compute. reflexivity.
Defined.

(** X19: with an evaluator that gives a value for every expression, the
    traversal of a tree without missing names returns. *)
Theorem traversal_completes {E : Externals} (n : Node) (s : CheckState) :
  (forall chain e, evaluate chain e <> None) ->
  wellNamed n = true ->
  exists ms, accept n s = Ok tt (addMessages s ms).
Proof.
  intros He Hn. pose proof (safe_accept He n Hn s) as Hs.
  destruct (accept n s) as [| [] s'] eqn:Ha; [contradiction |].
  destruct (scoped_result _ _ _ _ (scoped_accept n) Ha) as (ms & ->).
  now exists ms.
Qed.

Lemma traversal_completes_witness :
  exists ms,
    @accept sampleTotal sampleDocument noScope = Ok tt (addMessages noScope ms).
Proof.
  apply (@traversal_completes sampleTotal sampleDocument noScope).
  - intros chain e. cbn. destruct (Sample.evaluateLiteral chain e); discriminate.
  - reflexivity.
Defined.

(** ** The option to ignore type errors *)

Lemma withoutTypeErrors_app (a b : list DiagnosticMessage) :
  withoutTypeErrors (a ++ b) = (withoutTypeErrors a ++ withoutTypeErrors b)%list.
Proof. apply filter_app. Qed.

Lemma typeBlind_ret {A} (a : A) : typeBlind (ret a).
Proof.
  intros c b. right. exists a, []. split; intros pre; unfold ret; cbn;
    now rewrite app_nil_r.
Qed.

Lemma typeBlind_fault {A} : typeBlind (@fault A).
Proof. intros c b. left. now split. Qed.

Lemma typeBlind_bind {A B} (m : M A) (f : A -> M B) :
  typeBlind m -> (forall a, typeBlind (f a)) -> typeBlind (bind m f).
Proof.
  intros Hm Hf c b. unfold bind.
  destruct (Hm c b) as [F | (a & ms & H0 & H1)].
  - left. intros pre pre'. destruct (F pre pre') as [F0 F1].
    now rewrite F0, F1.
  - destruct (Hf a c b) as [F | (a' & ms' & H0' & H1')].
    + left. intros pre pre'. rewrite H0, H1.
      destruct (F (pre ++ ms)%list (pre' ++ withoutTypeErrors ms)%list).
      now split.
    + right. exists a', (ms ++ ms')%list. split; intros pre.
      * now rewrite H0, H0', app_assoc.
      * now rewrite H1, H1', withoutTypeErrors_app, app_assoc.
Qed.

Lemma typeBlind_append (d : DiagnosticMessage) :
  isUnknownType d = false -> typeBlind (append d).
Proof.
  intros Hd c b. right. exists tt, [d]. split; intros pre; unfold append; cbn;
    [reflexivity |].
  unfold withoutTypeErrors. cbn. now rewrite Hd.
Qed.

Lemma typeBlind_scopeChain : typeBlind scopeChain.
Proof.
  intros c b. right. exists c, []. split; intros pre; unfold scopeChain; cbn;
    now rewrite app_nil_r.
Qed.

Create HintDb typeBlind.
#[local] Hint Resolve typeBlind_ret typeBlind_fault typeBlind_scopeChain
  : typeBlind.

Ltac typeBlind_step :=
  match goal with
  | |- typeBlind (bind _ _) => apply typeBlind_bind; [| intros ?]
  | |- typeBlind (error _ _) => apply typeBlind_append; reflexivity
  | |- typeBlind (warning _ _) => apply typeBlind_append; reflexivity
  | |- typeBlind (if ?b then _ else _) => destruct b
  | |- typeBlind (match ?o with Some _ => _ | None => _ end) => destruct o
  | |- typeBlind _ => solve [auto with typeBlind]
  end.

Lemma typeBlind_memberLookup (idPart : UiQualifiedId) :
  forall propertyName value,
    typeBlind (memberLookup idPart propertyName value).
Proof.
  induction idPart as [n tok nxt IH]. intros propertyName value.
  destruct nxt as [nxt|]; simpl; [| auto with typeBlind].
  inversion IH as [a IHnxt|]; subst.
  repeat typeBlind_step.
Qed.

(** No message of the compatibility check is the one about types. *)
Lemma check_is_not_about_types {E : Externals}
  (l : AST.SourceLocation) (lhs rhs : option Value) (ast : Node)
  (m : DiagnosticMessage) :
  AssignmentCheck l lhs rhs ast = Some m -> isUnknownType m = false.
Proof.
  unfold AssignmentCheck.
  destruct lhs as [lhs|]; [| intros H; now inversion H].
  destruct lhs; simpl;
    unfold visitNumberValue, visitBooleanValue, visitColorValue,
      visitStringValue, visitAnchorLineValue;
    repeat match goal with
      | |- context [match castStringLiteral ?a with _ => _ end] =>
          destruct (castStringLiteral a)
      | |- context [match rhs with _ => _ end] => destruct rhs
      | |- context [if ?b then _ else _] => destruct b
      end;
    intros H; inversion H; reflexivity.
Qed.

Section TypeBlind.
Context {E : Externals}.

Lemma typeBlind_checkScopeObjectMember (id : option UiQualifiedId) :
  typeBlind (checkScopeObjectMember id).
Proof.
  unfold checkScopeObjectMember.
  repeat typeBlind_step. apply typeBlind_memberLookup.
Qed.

Lemma typeBlind_checkBinding (q : UiQualifiedId) (statement : option Node) :
  typeBlind (checkBinding q statement).
Proof.
  unfold checkBinding.
  apply typeBlind_bind; [apply typeBlind_checkScopeObjectMember | intros lhs].
  destruct lhs as [lhs|]; [| auto with typeBlind].
  destruct statement as [[]|]; auto with typeBlind.
  apply typeBlind_bind; [auto with typeBlind | intros chain].
  destruct (AssignmentCheck _ _ _ _) as [m|] eqn:Hm; [| auto with typeBlind].
  apply check_is_not_about_types in Hm.
  apply typeBlind_bind; [| auto with typeBlind].
  destruct (negb _); [now apply typeBlind_append | auto with typeBlind].
Qed.

Lemma typeBlind_visitUiScriptBinding (q : option UiQualifiedId)
  (statement : option Node) : typeBlind (visitUiScriptBinding q statement).
Proof.
  unfold visitUiScriptBinding.
  destruct q as [q|]; [| auto with typeBlind].
  destruct (qname q) as [propertyName|]; [| auto with typeBlind].
  destruct (_ && _); [| apply typeBlind_checkBinding].
  destruct statement as [stmt|]; [| auto with typeBlind].
  destruct stmt as [| | | | |e| | | | | | | | | |];
    try solve [repeat typeBlind_step].
  destruct e as [| | | | | |[id|]| | | | | | | | |];
    try solve [repeat typeBlind_step];
    repeat typeBlind_step; apply typeBlind_checkBinding.
Qed.

Lemma typeBlindSetup_ret : typeBlindSetup (ret tt).
Proof.
  intros c b. exists [], c. split; intros pre; unfold ret; cbn;
    now rewrite app_nil_r.
Qed.

Lemma typeBlindSetup_unknownType (typeId : UiQualifiedId) :
  typeBlindSetup
    (if isNull (lookupType typeId) then
       ignore <- ignoreTypeErrors ;;
       (if negb ignore
        then error (qtoken typeId) "unknown type"
        else ret tt) ;;;
       clearQmlScopeObjects
     else ret tt).
Proof.
  destruct (isNull _); [| apply typeBlindSetup_ret].
  intros c b.
  exists [mkMessage Error (qtoken typeId) "unknown type"],
         (mkScopeChain [] (qmlTypes c) (jsScopes c)).
  split; intros pre; cbn; [reflexivity | now rewrite app_nil_r].
Qed.

Lemma typeBlind_frame (ast : Node) (setup body : M unit) :
  typeBlindSetup setup -> typeBlind body ->
  typeBlind (push ast ;;; setup ;;; body ;;; pop).
Proof.
  intros Hs Hb c b.
  destruct (Hs (enterScope ast c) (c :: b)) as (ms & c' & Hs0 & Hs1).
  destruct (Hb c' (c :: b)) as [F | ([] & ms' & Hb0 & Hb1)].
  - left. intros pre pre'. unfold bind, push. cbn. rewrite Hs0, Hs1.
    destruct (F (pre ++ ms)%list (pre' ++ withoutTypeErrors ms)%list)
      as [F0 F1].
    now rewrite F0, F1.
  - right. exists tt, (ms ++ ms')%list. split; intros pre;
      unfold bind, push; cbn.
    + rewrite Hs0, Hb0. cbn. now rewrite app_assoc.
    + rewrite Hs1, Hb1. cbn. now rewrite withoutTypeErrors_app, app_assoc.
Qed.

Lemma typeBlind_visitQmlObject (ast : Node) (typeId : option UiQualifiedId)
  (acceptInitializer : M unit) :
  typeBlind acceptInitializer ->
  typeBlind (visitQmlObject ast typeId acceptInitializer).
Proof.
  intros Hb. unfold visitQmlObject.
  destruct typeId as [typeId|]; [| auto with typeBlind].
  destruct (qname typeId) as [typeName|]; [| auto with typeBlind].
  destruct (QString.at_ typeName 0) as [ch|]; [| auto with typeBlind].
  destruct (_ && _).
  - apply typeBlind_bind;
      [apply typeBlind_checkScopeObjectMember | auto with typeBlind].
  - apply typeBlind_frame; [apply typeBlindSetup_unknownType | exact Hb].
Qed.

Lemma typeBlind_function (ast : Node) (formals body : M unit) :
  typeBlind formals -> typeBlind body ->
  typeBlind (formals ;;; push ast ;;; body ;;; pop).
Proof.
  intros Hf Hb. apply typeBlind_bind; [exact Hf | intros _].
  exact (typeBlind_frame ast (ret tt) body typeBlindSetup_ret Hb).
Qed.

Lemma typeBlind_Node_accept (f : Node -> M unit) (o : option Node) :
  option_all Node (fun n => typeBlind (f n)) o -> typeBlind (Node_accept f o).
Proof. intros H. destruct H; simpl; auto with typeBlind. Qed.

Lemma typeBlind_acceptEach (f : Node -> M unit) (l : list Node) :
  list_all Node (fun n => typeBlind (f n)) l -> typeBlind (acceptEach f l).
Proof.
  intros H. induction H; simpl; [auto with typeBlind |].
  apply typeBlind_bind; auto.
Qed.

Lemma typeBlind_accept (n : Node) : typeBlind (accept n).
Proof.
  induction n; simpl;
    auto using typeBlind_acceptEach, typeBlind_Node_accept,
               typeBlind_visitQmlObject, typeBlind_function with typeBlind.
  - apply typeBlind_bind; [now apply typeBlind_acceptEach | intros _].
    now apply typeBlind_acceptEach.
  - apply typeBlind_bind; [apply typeBlind_checkScopeObjectMember | intros _].
    auto using typeBlind_Node_accept, typeBlind_visitQmlObject.
  - apply typeBlind_bind; [apply typeBlind_visitUiScriptBinding | intros []];
      auto using typeBlind_Node_accept with typeBlind.
  - apply typeBlind_bind; [apply typeBlind_checkScopeObjectMember | intros _].
    now apply typeBlind_acceptEach.
Qed.

End TypeBlind.

(** X20: the option to ignore type errors removes the errors "unknown
    type" and changes nothing else: a run with the option gives the
    diagnostics of the run without it, in their order, less those
    errors. *)
Theorem ignoring_type_errors {E : Externals}
  (ast : option Node) (pre : list DiagnosticMessage)
  (c : ScopeChain) (b : list ScopeChain)
  (ms : list DiagnosticMessage) (s' : CheckState) :
  run ast (mkState pre c b false) = Ok ms s' ->
  run ast (mkState pre c b true)
  = Ok (withoutTypeErrors ms) (mkState (withoutTypeErrors ms) c b true).
Proof.
  unfold run, bind, clearMessages, messages. cbn.
  destruct ast as [n|]; cbn; [| intros H; now inversion H].
  destruct (typeBlind_accept n c b) as [F | ([] & ms0 & H0 & H1)].
  - destruct (F [] []) as [F0 _]. rewrite F0. discriminate.
  - rewrite H0, H1. cbn. intros H. now inversion H.
Qed.

Lemma ignoring_type_errors_witness :
  @run sample (Some sampleDocument) (mkState [] (_context noScope) [] true)
  = Ok (withoutTypeErrors sampleDiagnostics)
       (mkState (withoutTypeErrors sampleDiagnostics) (_context noScope) []
                true) /\
  List.length (withoutTypeErrors sampleDiagnostics) = 2%nat.
Proof.
  split; [| reflexivity].
  apply (@ignoring_type_errors sample (Some sampleDocument) []
           (_context noScope) [] sampleDiagnostics
           (mkState sampleDiagnostics (_context noScope) [] false)).
  vm_compute. reflexivity.
Defined.

(** ** Bindings without a rule, and the order of the diagnostics *)

(** X21: a binding whose property resolves to an object, to a reference,
    to undefined or to null is not checked against its expression:
    whatever the expression and whatever its evaluation gives, nothing is
    reported. *)
Theorem binding_without_rule {E : Externals}
  (q : UiQualifiedId) (expr : Node) (s s' : CheckState) (lhs : Value) :
  checkScopeObjectMember (Some q) s = Ok (Some lhs) s' ->
  hasNoRule lhs = true ->
  visitUiScriptBinding (Some q) (Some (ExpressionStatement expr)) s
  = Ok true s'.
Proof.
  intros Hres Hrule.
  rewrite (checked_binding q expr s s' lhs
             (mkMessage Error (statementLocation expr) EmptyString) Hres);
    [reflexivity |].
  destruct lhs; try discriminate; reflexivity.
Qed.

Lemma binding_without_rule_witness :
  @visitUiScriptBinding noValue (Some (segment "anchors" None))
     (Some (ExpressionStatement TrueLiteral)) inItem
  = Ok true inItem.
Proof.
  apply (@binding_without_rule noValue (segment "anchors" None) TrueLiteral
           inItem inItem (ObjectV Sample.anchors)); reflexivity.
Defined.

(** X22: the diagnostics of a list of nodes are those of each node, in the
    order of the list, each as the node gives them when visited on its own
    in the scope the list is visited in. *)
Theorem members_checked_in_order {E : Externals} (l : list Node) :
  forall pre c b i s',
    acceptEach accept l (mkState pre c b i) = Ok tt s' ->
    s' = mkState (pre ++ List.concat (map (fun n => diagnosticsOf n c b i) l))
                 c b i.
Proof.
  induction l as [| n l IH]; intros pre c b i s' H; cbn in *.
  - unfold ret in H. inversion H. now rewrite app_nil_r.
  - unfold bind in H. unfold diagnosticsOf at 1.
    destruct (scoped_accept n c b i) as [F | ([] & ms & Hok)].
    + rewrite F in H. discriminate.
    + rewrite Hok in H. rewrite Hok. cbn.
      rewrite (IH _ _ _ _ _ H). now rewrite app_assoc.
Qed.

Lemma members_checked_in_order_witness :
  acceptEach (@accept sample)
     [binding "width" TrueLiteral; binding "nowhere" NumericLiteral]
     inItem
  = Ok tt (mkState
             ([] ++ List.concat
                      (map (fun n =>
                              @diagnosticsOf sample n (_context inItem) [] false)
                           [binding "width" TrueLiteral;
                            binding "nowhere" NumericLiteral]))
             (_context inItem) [] false) /\
  List.length
    (List.concat (map (fun n => @diagnosticsOf sample n (_context inItem) [] false)
                 [binding "width" TrueLiteral;
                  binding "nowhere" NumericLiteral])) = 2%nat.
Proof.
  split; [| reflexivity].
  rewrite <- (@members_checked_in_order sample
                [binding "width" TrueLiteral; binding "nowhere" NumericLiteral]
                [] (_context inItem) [] false
                (mkState
                   [mkMessage Error (AST.mkLoc 4 3 1 5)
                              "numerical value expected";
                    mkMessage Error Sample.noLoc
                              "'nowhere' is not a valid property name"]
                   (_context inItem) [] false));
    reflexivity.
Defined.
